(** * The service controller of cloud-provider-alibaba-cloud

    A shallow embedding of
    [cloud-controller-manager/controller/service/controller.go]: the requeue
    backoff of the worker loop, the node eligibility predicate, the generic
    retry helper and the reconciliation functions [ServiceSyncTask], [update],
    [updateStatus] and [delete], followed by the properties of the
    specification that concern them.

    Conventions of the model.
    - [time.Duration] and [time.Time] are integers counting nanoseconds.
    - [float64] is Rocq's primitive binary64 float.
    - A Go [error] is a record of its text and of the API status reason that
      [errors.IsNotFound] and [errors.IsConflict] inspect; a nilable error is
      an [option].
    - Maps with string keys (labels, annotations, the service cache) are
      [gmap string _]; reading a missing key of a Go map yields the zero
      value, which [GoIndex] makes explicit.
    - The collaborators of the controller (cloud backend, API client,
      informer listers, event recorder) are an interface over an abstract
      external state; every call the controller issues is appended to a log.
    - Logging ([klog], [utils.Logf]) and latency metrics have no effect on
      the results and are left out. *)

From Stdlib Require Import ZArith Floats Ascii.
From stdpp Require Import gmap strings list.

Open Scope string_scope.
Open Scope list_scope.
Open Scope Z_scope.

(** ** Durations and instants *)

Abbreviation Duration := Z (only parsing).
Abbreviation Time := Z (only parsing).

Definition Nanosecond : Duration := 1.
Definition Second : Duration := 1000000000 * Nanosecond.
Definition Minute : Duration := 60 * Second.

(** ** Conversions between [int64] and [float64] *)

Definition MinInt64 : Z := - 2 ^ 63.
Definition MaxInt64 : Z := 2 ^ 63 - 1.

(** [float64(d)]: the nearest binary64 value, ties to even. *)
Definition float64_of_int64 (z : Z) : float :=
  SF2Prim (binary_normalize prec emax z 0 false).

(** [time.Duration(f)]: truncation toward zero.  Go leaves the result open
    when the value does not fit; the amd64 conversion instruction yields the
    smallest [int64] there, also for infinities and NaN. *)
Definition int64_of_float64 (f : float) : Z :=
  match Prim2SF f with
  | S754_zero _ => 0
  | S754_finite s m e =>
      let mag := if 0 <=? e then Z.pos m * 2 ^ e else Z.pos m / 2 ^ (- e) in
      let v := if s then - mag else mag in
      if (MinInt64 <=? v) && (v <=? MaxInt64) then v else MinInt64
  | _ => MinInt64
  end.

(** ** RequeueBackoff *)

Record RequeueBackoff := mkRequeueBackoff {
  last : Time;
  next : Duration;
  factor : float
}.

(** [NewBackoff] at instant [now].  The goroutine that [reset] starts is the
    transition [resetTick] below. *)
Definition NewBackoff (now : Time) (next0 : Duration) (factor0 : float)
  : RequeueBackoff :=
  {| last := now; next := next0; factor := factor0 |}.

(** One firing of the ticker inside [reset], at instant [now]. *)
Definition resetTick (now : Time) (b : RequeueBackoff) : RequeueBackoff :=
  if last b + 1 * Minute <? now
  then {| last := last b; next := 5 * Second; factor := factor b |}
  else b.

(** [time.Duration(float64(b.next) * b.factor)] *)
Definition multiplied (b : RequeueBackoff) : Duration :=
  int64_of_float64 (PrimFloat.mul (float64_of_int64 (next b)) (factor b)).

(** [b.Next()] called at instant [now]: the returned duration and the
    backoff after the call. *)
Definition Next (now : Time) (b : RequeueBackoff) : Duration * RequeueBackoff :=
  let n := multiplied b in
  let n := if 120 * Second <? n then 30 * Second else n in
  (n, {| last := now; next := n; factor := factor b |}).

(** Successive calls of [Next] at the instants [nows], nothing in between. *)
Fixpoint Nexts (nows : list Time) (b : RequeueBackoff)
  : list Duration * RequeueBackoff :=
  match nows with
  | [] => ([], b)
  | now :: rest =>
      let '(d, b1) := Next now b in
      let '(ds, b2) := Nexts rest b1 in
      (d :: ds, b2)
  end.

(** What can happen to a backoff once it exists. *)
Inductive BackoffEvent :=
| CallNext (now : Time)
| TickerFires (now : Time).

Definition backoffStep (b : RequeueBackoff) (ev : BackoffEvent) : RequeueBackoff :=
  match ev with
  | CallNext now => snd (Next now b)
  | TickerFires now => resetTick now b
  end.

(** The backoff each worker creates: [NewBackoff(5*time.Second, 1.5)]. *)
Definition workerFactor : float := 1.5%float.
Definition workerBackoff (now : Time) : RequeueBackoff :=
  NewBackoff now (5 * Second) workerFactor.

Inductive WorkerReachable : RequeueBackoff -> Prop :=
| reach_new now : WorkerReachable (workerBackoff now)
| reach_step b ev : WorkerReachable b -> WorkerReachable (backoffStep b ev).

(** The delays a worker's backoff can hold, in nanoseconds. *)
Definition workerDelays : list Duration :=
  [ 5000000000; 7500000000; 11250000000; 16875000000; 25312500000;
    37968750000; 56953125000; 85429687500;
    30000000000; 45000000000; 67500000000; 101250000000 ].

(** The states a worker's backoff can be in: the factor never changes and the
    delay is one of twelve values. *)
Definition workerState (b : RequeueBackoff) : Prop :=
  factor b = workerFactor /\ In (next b) workerDelays.

(** A state one step below the ceiling. *)
Definition nearCeiling : RequeueBackoff :=
  {| last := 0; next := 85429687500; factor := workerFactor |}.

Definition eightCalls : list Time :=
  [1 * Second; 2 * Second; 3 * Second; 4 * Second;
   5 * Second; 6 * Second; 7 * Second; 8 * Second].

(** ** Strings *)


(** [strings.Contains(s, substr)] *)
Fixpoint Contains (s substr : string) : bool :=
  String.prefix substr s ||
  match s with
  | EmptyString => false
  | String _ s' => Contains s' substr
  end.

(** [strings.Split(s, sep)] for a separator of one character. *)
Fixpoint Split (s : string) (sep : ascii) : list string :=
  match s with
  | EmptyString => [EmptyString]
  | String c s' =>
      if Ascii.eqb c sep then EmptyString :: Split s' sep
      else match Split s' sep with
           | p :: ps => String c p :: ps
           | [] => [String c EmptyString]
           end
  end.

(** Reading a Go map of strings: a missing key reads as the empty string. *)
Definition GoIndex (m : gmap string string) (k : string) : string :=
  default EmptyString (m !! k).

(** ** Errors *)

(** The reason an API status error carries; plain errors carry none. *)
Inductive StatusReason :=
| ReasonUnknown
| ReasonNotFound
| ReasonConflict.

Record GoError := mkError {
  Error : string;
  Reason : StatusReason
}.

(** [fmt.Errorf] and [errors.New] build plain errors. *)
Definition Errorf (msg : string) : GoError :=
  {| Error := msg; Reason := ReasonUnknown |}.

Definition IsNotFound (err : option GoError) : bool :=
  match err with
  | Some {| Reason := ReasonNotFound |} => true
  | _ => false
  end.

Definition IsConflict (err : option GoError) : bool :=
  match err with
  | Some {| Reason := ReasonConflict |} => true
  | _ => false
  end.

(** ** Kubernetes objects, as far as the controller reads them *)

Record LoadBalancerIngress := mkIngress {
  IP : string;
  Hostname : string
}.

Record LoadBalancerStatus := mkStatus {
  Ingress : list LoadBalancerIngress
}.

Record Service := mkService {
  svcNamespace : string;
  svcName : string;
  svcUID : string;
  svcLabels : gmap string string;
  svcAnnotations : gmap string string;
  svcType : string;
  svcExternalTrafficPolicy : string;
  svcStatus : LoadBalancerStatus
}.

Record NodeCondition := mkCondition {
  condType : string;
  condStatus : string
}.

Record Node := mkNode {
  nodeName : string;
  nodeLabels : gmap string string;
  nodeUnschedulable : bool;
  nodeConditions : list NodeCondition
}.

Definition ServiceExternalTrafficPolicyTypeLocal : string := "Local".
Definition ServiceExternalTrafficPolicyTypeCluster : string := "Cluster".
Definition NodeReady : string := "Ready".
Definition ConditionTrue : string := "True".
Definition EventTypeNormal : string := "Normal".
Definition EventTypeWarning : string := "Warning".

Definition LabelNodeRoleMaster : string := "node-role.kubernetes.io/master".
Definition TRY_AGAIN : string := "try again".

(** [v1helper.LoadBalancerStatusEqual] *)
Definition ingressEqual (lhs rhs : LoadBalancerIngress) : bool :=
  String.eqb (IP lhs) (IP rhs) && String.eqb (Hostname lhs) (Hostname rhs).

Fixpoint ingressSliceEqual (lhs rhs : list LoadBalancerIngress) : bool :=
  match lhs, rhs with
  | [], [] => true
  | l :: lhs', r :: rhs' => ingressEqual l r && ingressSliceEqual lhs' rhs'
  | _, _ => false
  end.

Definition LoadBalancerStatusEqual (l r : LoadBalancerStatus) : bool :=
  ingressSliceEqual (Ingress l) (Ingress r).

(** [cache.SplitMetaNamespaceKey]; the text of its error is not read by the
    controller. *)
Definition SplitMetaNamespaceKey (k : string) : (string * string) + GoError :=
  match Split k "/" with
  | [name] => inl (EmptyString, name)
  | [ns; name] => inl (ns, name)
  | _ => inr (Errorf ("unexpected key format: " +:+ k))
  end.

(** [key(svc)] *)
Definition key (svc : Service) : string :=
  svcNamespace svc +:+ "/" +:+ svcName svc.

(** ** getLogMessage

    The pattern is: any characters, then a group made of [Message:] and any
    characters.  It is matched leftmost, "any character" stops at a line
    break and the leading repetition is greedy: the match lies in the first
    line that contains [Message:], and the group starts at the last
    [Message:] of that line and runs to its end. *)

Definition newline : ascii := Ascii.ascii_of_nat 10.

Fixpoint lastMessage (line : string) : option string :=
  match line with
  | EmptyString => None
  | String _ rest =>
      match lastMessage rest with
      | Some m => Some m
      | None => if String.prefix "Message:" line then Some line else None
      end
  end.

Fixpoint firstMessage (lines : list string) : option string :=
  match lines with
  | [] => None
  | l :: ls =>
      match lastMessage l with
      | Some m => Some m
      | None => firstMessage ls
      end
  end.

Definition getLogMessage (err : GoError) : string :=
  match firstMessage (Split (Error err) newline) with
  | Some message => message
  | None => Error err
  end.

(** ** The predicate of NodeConditionPredicate *)

(** Names the controller reads from files of the repository that are not at
    hand: constants and [GetServiceHash] of package [utils], and
    [NeedLoadBalancer] of another file of package [service].  They are taken
    as parameters. *)
Class OtherFiles := {
  ServiceAnnotationLoadBalancerRemoveUnscheduledBackend : string;
  ECINodeLabel : string;
  LabelServiceHash : string;
  GetServiceHash : Service -> string * option GoError;
  NeedLoadBalancer : Service -> bool
}.

Section Eligibility.
Context `{OtherFiles}.

Definition notReady (cond : NodeCondition) : bool :=
  String.eqb (condType cond) NodeReady &&
  negb (String.eqb (condStatus cond) ConditionTrue).

Definition predicate (svc : Service) (node : Node) : bool :=
  if nodeUnschedulable node &&
     String.eqb
       (GoIndex (svcAnnotations svc)
          ServiceAnnotationLoadBalancerRemoveUnscheduledBackend) "on"
  then false
  else if bool_decide (is_Some (nodeLabels node !! LabelNodeRoleMaster)) &&
          String.eqb (svcExternalTrafficPolicy svc)
            ServiceExternalTrafficPolicyTypeCluster
  then false
  else if bool_decide (nodeLabels node !! "type" = Some ECINodeLabel)
  then true
  else if (length (nodeConditions node) =? 0)%nat
  then false
  else negb (existsb notReady (nodeConditions node)).

Definition NodeConditionPredicate (svc : Service)
  : (Node -> bool) * option GoError :=
  (predicate svc, None).
End Eligibility.

(** ** The controller and its collaborators *)

(** The calls the controller issues to the outside, in the order issued. *)
Inductive Call :=
| CallGetLoadBalancer (clusterName : string) (svc : Service)
| CallEnsureLoadBalancer (clusterName : string) (svc : Service) (nodes : list Node)
| CallEnsureLoadBalancerDeleted (clusterName : string) (svc : Service)
| CallServicesGet (namespace name : string)
| CallServicesUpdateStatus (svc : Service)
| CallPatchService (old new : Service)
| CallEventf (svc : Service) (eventtype reason message : string).

(** [cloudprovider.LoadBalancer], the typed client, the informer listers:
    interfaces, implemented elsewhere, over an external state [Ext].  Of the
    three results of [GetLoadBalancer] the controller reads the last two. *)
Class Collaborators (Ext : Type) := {
  cloud_GetLoadBalancer :
    string -> Service -> Ext -> (bool * option GoError) * Ext;
  cloud_EnsureLoadBalancer :
    string -> Service -> list Node -> Ext ->
    (option LoadBalancerStatus * option GoError) * Ext;
  cloud_EnsureLoadBalancerDeleted :
    string -> Service -> Ext -> option GoError * Ext;
  client_ServicesGet : string -> string -> Ext -> (Service + GoError) * Ext;
  client_ServicesUpdateStatus : Service -> Ext -> option GoError * Ext;
  client_ServicesPatch : Service -> Service -> Ext -> option GoError * Ext;
  lister_ServicesGet : string -> string -> Ext -> option Service * option GoError;
  lister_NodesList : Ext -> list Node * option GoError
}.

(** Modelled from the spec: the type [Context] of the service cache
    ([con.local]) is declared outside the sources at hand.  The spec gives it
    as a process-local map from the key [namespace/name] to the last service
    object stored for it, with [Get], [Set] and [Remove]. *)
Abbreviation ServiceCache := (gmap string Service) (only parsing).

Record World (Ext : Type) := mkWorld {
  ext : Ext;
  local : ServiceCache;
  calls : list Call
}.
Arguments mkWorld {Ext}.
Arguments ext {Ext}.
Arguments local {Ext}.
Arguments calls {Ext}.

(** Computations of the controller: the world is threaded through. *)
Definition M (Ext A : Type) : Type := World Ext -> A * World Ext.

Definition ret {Ext A} (a : A) : M Ext A := fun w => (a, w).

Definition bind {Ext A B} (m : M Ext A) (k : A -> M Ext B) : M Ext B :=
  fun w => let '(a, w1) := m w in k a w1.

Declare Scope go_scope.
Delimit Scope go_scope with go.
Notation "x <- m ;; k" := (bind m (fun x => k))
  (at level 62, m at next level, right associativity) : go_scope.

Definition record {Ext} (c : Call) : M Ext unit :=
  fun w => (tt, {| ext := ext w; local := local w; calls := calls w ++ [c] |}).

Definition external {Ext A} (f : Ext -> A * Ext) : M Ext A :=
  fun w => let '(a, e) := f (ext w) in
           (a, {| ext := e; local := local w; calls := calls w |}).

Definition observe {Ext A} (f : Ext -> A) : M Ext A :=
  fun w => (f (ext w), w).

Definition contextGet {Ext} (k : string) : M Ext (option Service) :=
  fun w => (local w !! k, w).

Definition contextSet {Ext} (k : string) (svc : Service) : M Ext unit :=
  fun w => (tt, {| ext := ext w; local := <[k := svc]> (local w); calls := calls w |}).

Definition contextRemove {Ext} (k : string) : M Ext unit :=
  fun w => (tt, {| ext := ext w; local := base.delete k (local w); calls := calls w |}).

(** [con.recorder.Eventf] *)
Definition Eventf {Ext} (svc : Service) (eventtype reason message : string)
  : M Ext unit :=
  record (CallEventf svc eventtype reason message).

(** A computation that only ever appends to the call log. *)
Definition appends {Ext A} (m : M Ext A) : Prop :=
  forall w, exists l, calls (snd (m w)) = calls w ++ l.

(** ** wait.ExponentialBackoff *)

Record WaitBackoff := mkWaitBackoff {
  wbDuration : Duration;
  wbFactor : float;
  wbJitter : float;
  wbSteps : Z
}.

Definition ErrWaitTimeout : GoError :=
  Errorf "timed out waiting for the condition".

(** The condition is tried at most [steps] times; the sleeps between the
    attempts take time and change nothing else. *)
Fixpoint attempts {Ext} (steps : nat) (condition : M Ext (bool * option GoError))
  : M Ext (option GoError) :=
  match steps with
  | O => ret (Some ErrWaitTimeout)
  | S n =>
      (r <- condition ;;
       match r with
       | (_, Some err) => ret (Some err)
       | (true, None) => ret None
       | (false, None) => attempts n condition
       end)%go
  end.

Definition ExponentialBackoff {Ext} (backoff : WaitBackoff)
    (condition : M Ext (bool * option GoError)) : M Ext (option GoError) :=
  attempts (Z.to_nat (wbSteps backoff)) condition.

(** ** The reconciliation functions *)

Record Controller := mkController {
  clusterName : string
}.

Definition withStatus (svc : Service) (st : LoadBalancerStatus) : Service :=
  {| svcNamespace := svcNamespace svc; svcName := svcName svc;
     svcUID := svcUID svc; svcLabels := svcLabels svc;
     svcAnnotations := svcAnnotations svc; svcType := svcType svc;
     svcExternalTrafficPolicy := svcExternalTrafficPolicy svc;
     svcStatus := st |}.

Definition withLabels (svc : Service) (ls : gmap string string) : Service :=
  {| svcNamespace := svcNamespace svc; svcName := svcName svc;
     svcUID := svcUID svc; svcLabels := ls;
     svcAnnotations := svcAnnotations svc; svcType := svcType svc;
     svcExternalTrafficPolicy := svcExternalTrafficPolicy svc;
     svcStatus := svcStatus svc |}.

Section Reconciler.
Context `{OtherFiles} {Ext : Type} `{Collaborators Ext}.
Local Open Scope go_scope.

(** A call to a collaborator: logged, then answered by the collaborator. *)
Definition invoke {A} (c : Call) (f : Ext -> A * Ext) : M Ext A :=
  _ <- record c ;; external f.

Definition defaultBackoff : WaitBackoff :=
  {| wbDuration := 1 * Second; wbSteps := 8;
     wbFactor := 2%float; wbJitter := 4%float |}.

Definition retry (backoff : option WaitBackoff)
    (fun_ : Service -> M Ext (option GoError)) (svc : Service)
  : M Ext (option GoError) :=
  let backoff := match backoff with
                 | None => defaultBackoff
                 | Some b => b
                 end in
  ExponentialBackoff backoff
    (err <- fun_ svc ;;
     match err with
     | Some e =>
         if Contains (Error e) TRY_AGAIN then ret (false, None)
         else ret (true, None)
     | None => ret (true, None)
     end).

Definition delete (con : Controller) (svc : Service) : M Ext (option GoError) :=
  err <- invoke (CallEnsureLoadBalancerDeleted (clusterName con) svc)
           (cloud_EnsureLoadBalancerDeleted (clusterName con) svc) ;;
  match err with
  | Some e =>
      _ <- Eventf svc EventTypeWarning "DeleteLoadBalancerFailed"
             ("Error deleting load balancer: " +:+ getLogMessage e) ;;
      ret (Some (Errorf TRY_AGAIN))
  | None =>
      _ <- Eventf svc EventTypeNormal "DeletedLoadBalancer"
             ("LoadBalancer Deleted SUCCESS. " +:+ key svc) ;;
      _ <- contextRemove (key svc) ;;
      ret None
  end.

(** [servicehelper.PatchService] *)
Definition PatchService (old new : Service) : M Ext (option GoError) :=
  invoke (CallPatchService old new) (client_ServicesPatch old new).

Definition addServiceHash (svc : Service) : M Ext (option GoError) :=
  match GetServiceHash svc with
  | (_, Some e) => ret (Some (Errorf ("compute service hash: " +:+ Error e)))
  | (serviceHash, None) =>
      let updated :=
        withLabels svc (<[LabelServiceHash := serviceHash]> (svcLabels svc)) in
      err <- PatchService svc updated ;;
      match err with
      | Some e => ret (Some (Errorf ("update service hash: " +:+ Error e)))
      | None => ret None
      end
  end.

Definition removeServiceHash (svc : Service) : M Ext (option GoError) :=
  match svcLabels svc !! LabelServiceHash with
  | Some _ =>
      let updated := withLabels svc (base.delete LabelServiceHash (svcLabels svc)) in
      err <- PatchService svc updated ;;
      match err with
      | Some e =>
          ret (Some (Errorf ("remove service hash, error: " +:+ Error e)))
      | None => ret None
      end
  | None => ret None
  end.

(** The function literal that [updateStatus] hands to [retry]. *)
Definition persistStatus (newm : LoadBalancerStatus) (svc : Service)
  : M Ext (option GoError) :=
  got <- invoke (CallServicesGet (svcNamespace svc) (svcName svc))
           (client_ServicesGet (svcNamespace svc) (svcName svc)) ;;
  match got with
  | inr _ => ret (Some (Errorf ("error to get svc " +:+ key svc)))
  | inl latest =>
      let updated := withStatus latest newm in
      err <- invoke (CallServicesUpdateStatus updated)
               (client_ServicesUpdateStatus updated) ;;
      match err with
      | None => ret None
      | Some e =>
          if IsNotFound err then ret None
          else if IsConflict err then
            ret (Some (Errorf ("not persisting update to service " +:+ key svc
                               +:+ " that has been changed since we received it: "
                               +:+ Error e)))
          else
            ret (Some (Errorf ("retry with " +:+ Error e +:+ ", " +:+ TRY_AGAIN)))
      end
  end.

Definition statusBackoff : WaitBackoff :=
  {| wbDuration := 1 * Second; wbSteps := 3;
     wbFactor := 2%float; wbJitter := 4%float |}.

Definition updateStatus (svc : Service) (pre : LoadBalancerStatus)
    (newm : option LoadBalancerStatus) : M Ext (option GoError) :=
  match newm with
  | None => ret (Some (Errorf "status not updated for nil status reason"))
  | Some newm =>
      if negb (LoadBalancerStatusEqual pre newm)
      then retry (Some statusBackoff) (persistStatus newm) svc
      else ret None
  end.

Definition AvailableNodes (svc : Service) : M Ext (list Node * option GoError) :=
  match NodeConditionPredicate svc with
  | (_, Some e) => ret ([], Some (Errorf ("error get predicate: " +:+ Error e)))
  | (predicate, None) =>
      listed <- observe lister_NodesList ;;
      match listed with
      | (_, Some e) => ret ([], Some e)
      | (nodes, None) => ret (List.filter predicate nodes, None)
      end
  end.

(** The tail of [update]: the status write and, on success, the cache
    write. *)
Definition finishUpdate (svc : Service) (pre : LoadBalancerStatus)
    (newm : option LoadBalancerStatus) : M Ext (option GoError) :=
  err <- updateStatus svc pre newm ;;
  match err with
  | Some e => ret (Some (Errorf ("update service status: " +:+ Error e)))
  | None =>
      _ <- contextSet (key svc) svc ;;
      ret None
  end.

Definition uidChanged (cached : option Service) (svc : Service) : bool :=
  match cached with
  | Some c => negb (String.eqb (svcUID c) (svcUID svc))
  | None => false
  end.

Definition update (con : Controller) (cached : option Service) (svc : Service)
  : M Ext (option GoError) :=
  let pre := svcStatus svc in
  if uidChanged cached svc then retry None (delete con) svc
  else if negb (NeedLoadBalancer svc) then
    got <- invoke (CallGetLoadBalancer EmptyString svc)
             (cloud_GetLoadBalancer EmptyString svc) ;;
    match got with
    | (_, Some e) => ret (Some e)
    | (exits, None) =>
        err <- (if exits then retry None (delete con) svc
                else _ <- contextRemove (key svc) ;; ret None) ;;
        match err with
        | Some e => ret (Some e)
        | None =>
            err <- removeServiceHash svc ;;
            match err with
            | Some e => ret (Some e)
            | None => finishUpdate svc pre (Some {| Ingress := [] |})
            end
        end
    end
  else
    avail <- AvailableNodes svc ;;
    match avail with
    | (_, Some e) =>
        ret (Some (Errorf ("error get available nodes " +:+ Error e)))
    | (nodes, None) =>
        _ <- (if (length nodes =? 0)%nat
              then Eventf svc EventTypeWarning "UnAvailableLoadBalancer"
                     "There are no available nodes for LoadBalancer"
              else ret tt) ;;
        ensured <- invoke (CallEnsureLoadBalancer (clusterName con) svc nodes)
                     (cloud_EnsureLoadBalancer (clusterName con) svc nodes) ;;
        match ensured with
        | (newm, None) =>
            _ <- Eventf svc EventTypeNormal "EnsuredLoadBalancer"
                   "Ensured load balancer" ;;
            err <- addServiceHash svc ;;
            match err with
            | Some e => ret (Some e)
            | None => finishUpdate svc pre newm
            end
        | (_, Some e) =>
            _ <- Eventf svc EventTypeWarning "SyncLoadBalancerFailed"
                   ("Error syncing load balancer: " +:+ getLogMessage e) ;;
            ret (Some (Errorf ("ensure loadbalancer error: " +:+ Error e)))
        end
    end.

Definition ServiceSyncTask (con : Controller) (k : string)
  : M Ext (option GoError) :=
  match SplitMetaNamespaceKey k with
  | inr _ =>
      ret (Some (Errorf ("unexpected key format " +:+ k
                         +:+ " for syncing service")))
  | inl (ns, name) =>
      cached <- contextGet k ;;
      got <- observe (lister_ServicesGet ns name) ;;
      let '(service, err) := got in
      if IsNotFound err then
        match cached with
        | None => ret None
        | Some cached => retry None (delete con) cached
        end
      else
        match err with
        | Some e =>
            ret (Some (Errorf ("failed to load service from local context: "
                               +:+ Error e)))
        | None =>
            match service with
            | None =>
                ret (Some (Errorf ("retry unexpected nil service " +:+ k
                                   +:+ ". ")))
            | Some service => update con cached service
            end
        end
  end.

(** The calls of a run of [update] that ensures a load balancer, up to and
    including the patch of the hash label. *)
Definition noNodesWarning (svc : Service) (nodes : list Node) : list Call :=
  if (length nodes =? 0)%nat
  then [CallEventf svc EventTypeWarning "UnAvailableLoadBalancer"
          "There are no available nodes for LoadBalancer"]
  else [].

Definition ensureCalls (con : Controller) (svc : Service) (nodes : list Node)
  : list Call :=
  noNodesWarning svc nodes ++
  [ CallEnsureLoadBalancer (clusterName con) svc nodes;
    CallEventf svc EventTypeNormal "EnsuredLoadBalancer" "Ensured load balancer";
    CallPatchService svc
      (withLabels svc
         (<[LabelServiceHash := fst (GetServiceHash svc)]> (svcLabels svc))) ].

(** ** The worker loop *)

Definition SyncTask : Type := string -> M Ext (option GoError).

(** What a worker does to its queue. *)
Inductive QueueOp :=
| QueueAddAfter (item : string) (d : Duration)
| QueueDone (item : string).

(** One turn of the loop of [WorkerFunc]: [got] is what [queue.Get]
    returned, [now] the instant a call of [Next] would read. *)
Definition workerTurn (syncd : SyncTask) (got : string * bool) (now : Time)
    (back : RequeueBackoff) : M Ext (list QueueOp * RequeueBackoff) :=
  let '(item, quit) := got in
  if quit then ret ([], back)
  else
    err <- syncd item ;;
    match err with
    | Some e =>
        if Contains (Error e) "Throttling" then
          let '(next, back1) := Next now back in
          ret ([QueueAddAfter item next; QueueDone item], back1)
        else
          ret ([QueueAddAfter item (5 * Second); QueueDone item], back)
    | None => ret ([QueueDone item], back)
    end.

(** The ticker that [reset] starts on the backoff of the worker runs beside
    the loop.  It fires every 20 seconds, counted from the instant [born] at
    which its goroutine created it; [tickerFirings] lists the firings later
    than [from] and not later than [to], in order, and [ticked] lets the
    backoff take them. *)
Definition tickerPeriod : Duration := 20 * Second.

Definition tickerFirings (born from to : Time) : list Time :=
  let first := Z.max 1 ((from - born) / tickerPeriod + 1) in
  let final := (to - born) / tickerPeriod in
  map (fun k => born + k * tickerPeriod) (seqZ first (final - first + 1)).

Definition ticked (firings : list Time) (back : RequeueBackoff) : RequeueBackoff :=
  fold_left (fun b now => resetTick now b) firings back.

(** Successive turns; each comes with what [queue.Get] returned and with the
    instant of the turn.  [since] is the instant of the turn before: the
    backoff a turn meets has taken the firings of the ticker up to the
    instant of the turn. *)
Fixpoint workerTurns (syncd : SyncTask) (born since : Time)
    (gots : list (string * bool * Time)) (back : RequeueBackoff)
  : M Ext (list QueueOp * RequeueBackoff) :=
  match gots with
  | [] => ret ([], back)
  | (got, now) :: rest =>
      r <- workerTurn syncd got now (ticked (tickerFirings born since now) back) ;;
      r' <- workerTurns syncd born now rest (snd r) ;;
      ret ((fst r ++ fst r')%list, snd r')
  end.

(** The first turns of a worker started at [start], whose ticker was created
    at [born]. *)
Definition WorkerFunc (syncd : SyncTask) (start born : Time)
    (gots : list (string * bool * Time)) : M Ext (list QueueOp * RequeueBackoff) :=
  workerTurns syncd born start gots (NewBackoff start (5 * Second) workerFactor).
End Reconciler.

(** ** A scripted environment

    Collaborators that answer every call from a fixed script, and example
    values for the names of [OtherFiles]; they serve to run the functions
    above on concrete inputs. *)

Record Script := mkScript {
  onGetLoadBalancer : bool * option GoError;
  onEnsureLoadBalancer : option LoadBalancerStatus * option GoError;
  onEnsureLoadBalancerDeleted : option GoError;
  onServicesGet : Service + GoError;
  onServicesUpdateStatus : option GoError;
  onServicesPatch : option GoError;
  listedService : option Service * option GoError;
  listedNodes : list Node * option GoError
}.

Definition scripted : Collaborators Script :=
  {| cloud_GetLoadBalancer := fun _ _ s => (onGetLoadBalancer s, s);
     cloud_EnsureLoadBalancer := fun _ _ _ s => (onEnsureLoadBalancer s, s);
     cloud_EnsureLoadBalancerDeleted := fun _ _ s =>
       (onEnsureLoadBalancerDeleted s, s);
     client_ServicesGet := fun _ _ s => (onServicesGet s, s);
     client_ServicesUpdateStatus := fun _ s => (onServicesUpdateStatus s, s);
     client_ServicesPatch := fun _ _ s => (onServicesPatch s, s);
     lister_ServicesGet := fun _ _ s => listedService s;
     lister_NodesList := fun s => listedNodes s |}.

Definition exampleFiles : OtherFiles :=
  {| ServiceAnnotationLoadBalancerRemoveUnscheduledBackend :=
       "service.beta.kubernetes.io/alibaba-cloud-loadbalancer-remove-unscheduled-backend";
     ECINodeLabel := "virtual-kubelet";
     LabelServiceHash := "service.beta.kubernetes.io/hash";
     GetServiceHash := fun svc => (svcUID svc +:+ "-hash", None);
     NeedLoadBalancer := fun svc => String.eqb (svcType svc) "LoadBalancer" |}.

Definition exampleController : Controller := {| clusterName := "kubernetes" |}.

Definition exampleService (uid type policy : string) (st : LoadBalancerStatus)
  : Service :=
  {| svcNamespace := "default"; svcName := "web"; svcUID := uid;
     svcLabels := ∅; svcAnnotations := ∅; svcType := type;
     svcExternalTrafficPolicy := policy; svcStatus := st |}.

Definition readyNode (name : string) (labels : gmap string string) : Node :=
  {| nodeName := name; nodeLabels := labels; nodeUnschedulable := false;
     nodeConditions := [ {| condType := NodeReady; condStatus := ConditionTrue |} ] |}.

Definition masterNode : Node :=
  readyNode "master-1" {[ LabelNodeRoleMaster := EmptyString ]}.

Definition quietScript : Script :=
  {| onGetLoadBalancer := (false, None);
     onEnsureLoadBalancer := (Some {| Ingress := [ {| IP := "10.0.0.1"; Hostname := EmptyString |} ] |}, None);
     onEnsureLoadBalancerDeleted := None;
     onServicesGet := inr (Errorf "unused");
     onServicesUpdateStatus := None;
     onServicesPatch := None;
     listedService := (None, None);
     listedNodes := ([ readyNode "worker-1" ∅ ], None) |}.

Definition startWorld (s : Script) (cache : gmap string Service) : World Script :=
  {| ext := s; local := cache; calls := [] |}.

(** The calls that write to the cloud backend or to the API server. *)
Definition isWrite (c : Call) : bool :=
  match c with
  | CallEnsureLoadBalancer _ _ _
  | CallEnsureLoadBalancerDeleted _ _
  | CallServicesUpdateStatus _
  | CallPatchService _ _ => true
  | _ => false
  end.

Definition isCloudCall (c : Call) : bool :=
  match c with
  | CallGetLoadBalancer _ _
  | CallEnsureLoadBalancer _ _ _
  | CallEnsureLoadBalancerDeleted _ _ => true
  | _ => false
  end.

Definition isEnsure (c : Call) : bool :=
  match c with
  | CallEnsureLoadBalancer _ _ _ => true
  | _ => false
  end.

Definition isStatusWrite (c : Call) : bool :=
  match c with
  | CallServicesUpdateStatus _ => true
  | _ => false
  end.

(** A computation whose calls all fail the test [p]. *)
Definition avoids {Ext A} (p : Call -> bool) (m : M Ext A) : Prop :=
  forall w, exists l, calls (snd (m w)) = calls w ++ l /\ existsb p l = false.

(** The calls issued after the world [w0] was reached. *)
Definition callsSince {Ext} (w0 w : World Ext) : list Call :=
  drop (length (calls w0)) (calls w).

(** Shapes of sequences of delays. *)
Fixpoint nonDecreasing (ds : list Duration) : bool :=
  match ds with
  | d :: ((d' :: _) as rest) => (d <=? d') && nonDecreasing rest
  | _ => true
  end.

(** Every delay is larger than the one before it, or is the plateau of 30
    seconds. *)
Fixpoint sawtooth (ds : list Duration) : bool :=
  match ds with
  | d :: ((d' :: _) as rest) =>
      ((d <? d') || (d' =? 30 * Second)) && sawtooth rest
  | _ => true
  end.


Definition assignedStatus : LoadBalancerStatus :=
  {| Ingress := [ {| IP := "10.0.0.1"; Hostname := EmptyString |} ] |}.

(** A service of type LoadBalancer with UID B and no status yet. *)
Definition lbService : Service :=
  exampleService "B" "LoadBalancer" "Cluster" {| Ingress := [] |}.

(** A service that needs no load balancer. *)
Definition plainService : Service :=
  exampleService "A" "ClusterIP" "Cluster" {| Ingress := [] |}.

(** The status write meets a conflict. *)
Definition conflictScript : Script :=
  {| onGetLoadBalancer := (false, None);
     onEnsureLoadBalancer := (Some assignedStatus, None);
     onEnsureLoadBalancerDeleted := None;
     onServicesGet := inl lbService;
     onServicesUpdateStatus :=
       Some {| Error := "the object has been modified"; Reason := ReasonConflict |};
     onServicesPatch := None;
     listedService := (Some lbService, None);
     listedNodes := ([ readyNode "worker-1" ∅ ], None) |}.

(** The status write meets a conflict worded as the API server words it. *)
Definition apiConflictScript : Script :=
  {| onGetLoadBalancer := (false, None);
     onEnsureLoadBalancer := (Some assignedStatus, None);
     onEnsureLoadBalancerDeleted := None;
     onServicesGet := inl lbService;
     onServicesUpdateStatus :=
       Some {| Error := "Operation cannot be fulfilled on services web: the object has been modified; please apply your changes to the latest version and try again";
               Reason := ReasonConflict |};
     onServicesPatch := None;
     listedService := (Some lbService, None);
     listedNodes := ([ readyNode "worker-1" ∅ ], None) |}.

(** The cloud backend still has a load balancer. *)
Definition leftoverScript : Script :=
  {| onGetLoadBalancer := (true, None);
     onEnsureLoadBalancer := (None, None);
     onEnsureLoadBalancerDeleted := None;
     onServicesGet := inr (Errorf "unused");
     onServicesUpdateStatus := None;
     onServicesPatch := None;
     listedService := (Some plainService, None);
     listedNodes := ([], None) |}.

(** The cache remembers the service of the same key with UID A. *)
Definition staleCache : gmap string Service :=
  {[ "default/web" := exampleService "A" "LoadBalancer" "Cluster" {| Ingress := [] |} ]}.

(** A service of type LoadBalancer whose recorded status is the one the
    scripted backend assigns, and two runs of [update] on it in a row. *)
Definition settledService : Service :=
  exampleService "B" "LoadBalancer" "Cluster" assignedStatus.

Definition firstRun : option GoError * World Script :=
  @update exampleFiles Script scripted exampleController None settledService
    (startWorld quietScript ∅).

Definition secondRun : option GoError * World Script :=
  @update exampleFiles Script scripted exampleController
    (local (snd firstRun) !! key settledService) settledService (snd firstRun).

(** Collaborators whose answers change with time: the state counts the
    calls of the ensure operation.  The first call succeeds; after it the
    lister of nodes fails when [listerBreaks] is set, and the ensure
    operation fails otherwise.  [wornRun] is a first run of [update] with
    them and [wornAgain] the run that follows it. *)
Definition wearing (listerBreaks : bool) : Collaborators nat :=
  {| cloud_GetLoadBalancer := fun _ _ n => ((false, None), n);
     cloud_EnsureLoadBalancer := fun _ _ _ n =>
       (if (n =? 0)%nat then (Some assignedStatus, None)
        else (None, Some (Errorf "Throttling.User")), S n);
     cloud_EnsureLoadBalancerDeleted := fun _ _ n => (None, n);
     client_ServicesGet := fun _ _ n => (inr (Errorf "unused"), n);
     client_ServicesUpdateStatus := fun _ n => (None, n);
     client_ServicesPatch := fun _ _ n => (None, n);
     lister_ServicesGet := fun _ _ _ => (Some settledService, None);
     lister_NodesList := fun n =>
       if listerBreaks && negb (n =? 0)%nat
       then ([], Some (Errorf "node informer is not synced"))
       else ([readyNode "worker-1" ∅], None) |}.

Definition wornRun (listerBreaks : bool) : option GoError * World nat :=
  @update exampleFiles nat (wearing listerBreaks) exampleController None
    settledService {| ext := 0%nat; local := ∅; calls := [] |}.

Definition wornAgain (listerBreaks : bool) : option GoError * World nat :=
  @update exampleFiles nat (wearing listerBreaks) exampleController
    (local (snd (wornRun listerBreaks)) !! key settledService) settledService
    (snd (wornRun listerBreaks)).

Definition withoutLabel (node : Node) (label : string) : Node :=
  {| nodeName := nodeName node;
     nodeLabels := base.delete label (nodeLabels node);
     nodeUnschedulable := nodeUnschedulable node;
     nodeConditions := nodeConditions node |}.

(** A sync task that fails without throttling. *)
Definition throttlingFree : @SyncTask Script :=
  fun _ => ret (Some (Errorf "ensure loadbalancer error: boom")).

(** A sync task that fails because the cloud throttles. *)
Definition throttled : @SyncTask Script :=
  fun _ => ret (Some (Errorf "ensure loadbalancer error: Throttling.User")).

(** Three throttled turns in a row, a gap of 100 seconds, and one more:
    what [queue.Get] returned, and the instants, of a worker started at 0
    whose ticker was created at the same instant. *)
Definition burstThenGap : list (string * bool * Time) :=
  [ ("default/web", false, 1 * Second);
    ("default/web", false, 9 * Second);
    ("default/web", false, 21 * Second);
    ("default/web", false, 121 * Second) ].

(** The lister no longer knows the service. *)
Definition goneScript : Script :=
  {| onGetLoadBalancer := (false, None);
     onEnsureLoadBalancer := (None, None);
     onEnsureLoadBalancerDeleted := None;
     onServicesGet := inr (Errorf "unused");
     onServicesUpdateStatus := None;
     onServicesPatch := None;
     listedService :=
       (None, Some {| Error := "service web not found"; Reason := ReasonNotFound |});
     listedNodes := ([], None) |}.

(** ** The event handlers of the service controller *)

Definition CCM_CLASS : string := "service.beta.kubernetes.io/class".

Definition isProcessNeeded (svc : Service) : bool :=
  String.eqb (GoIndex (svcAnnotations svc) CCM_CLASS) EmptyString.

Record EndpointAddress := mkEndpointAddress {
  epIP : string;
  epNodeName : option string
}.

Record Endpoints := mkEndpoints {
  epNamespace : string;
  epName : string;
  epSubsets : list (list EndpointAddress)
}.

(** The admission predicates of the handlers are declared in files of the
    repository that are not at hand; they are taken as parameters. *)
Class EventFilters := {
  NeedAdd : Service -> bool;
  NeedDelete : Service -> bool;
  IsExcludedNode : Node -> bool
}.

Section Handlers.
Context `{OtherFiles} `{EventFilters} {Ext : Type} `{Collaborators Ext}.
Local Open Scope go_scope.

(** Modelled from the spec: [Range] of the type [Context] is declared
    outside the sources at hand.  It visits every entry of the cache, in no
    order the controller can rely on; the callbacks of the controller never
    stop the visit. *)
Definition contextRange : M Ext (list (string * Service)) :=
  fun w => (map_to_list (local w), w).

(** The handlers answer with the keys they hand to [Enqueue], in order. *)
Definition syncService (svc : Service) : M Ext (list string) :=
  if negb (isProcessNeeded svc) then ret [] else ret [key svc].

(** [AddFunc] and [DeleteFunc] of [HandlerForServiceChange]; [None] stands
    for an object that is no service. *)
Definition serviceAdded (add : option Service) : M Ext (list string) :=
  match add with
  | Some svc => if NeedAdd svc then syncService svc else ret []
  | None => ret []
  end.

Definition serviceDeleted (cur : option Service) : M Ext (list string) :=
  match cur with
  | Some svc =>
      if NeedDelete svc
      then _ <- contextSet (key svc) svc ;; syncService svc
      else ret []
  | None => ret []
  end.

(** [syncNodes] of [HandlerForNodesChange] *)
Definition nodeChangeKey (entry : string * Service) : option string :=
  let svc := snd entry in
  if negb (NeedLoadBalancer svc) then None
  else if negb (isProcessNeeded svc) then None
  else Some (key svc).

Definition syncNodes (object : option Node) : M Ext (list string) :=
  match object with
  | None => ret []
  | Some node =>
      if IsExcludedNode node then ret []
      else entries <- contextRange ;; ret (omap nodeChangeKey entries)
  end.

(** [syncEndpoints] of [HandlerForEndpointChange] *)
Definition syncEndpoints (epd : option Endpoints) : M Ext (list string) :=
  match epd with
  | None => ret []
  | Some ep =>
      cached <- contextGet (epNamespace ep +:+ "/" +:+ epName ep) ;;
      found <- match cached with
               | Some svc => ret (Some svc)
               | None =>
                   got <- invoke (CallServicesGet (epNamespace ep) (epName ep))
                            (client_ServicesGet (epNamespace ep) (epName ep)) ;;
                   match got with
                   | inl svc => ret (Some svc)
                   | inr _ => ret None
                   end
               end ;;
      match found with
      | None => ret []
      | Some svc =>
          if negb (isProcessNeeded svc) then ret []
          else if negb (NeedLoadBalancer svc) then ret []
          else ret [key svc]
      end
  end.
End Handlers.

(** ** Shapes of computations *)

(** Every call of the computation satisfies [P]. *)
Definition emitsOnly {Ext A} (P : Call -> Prop) (m : M Ext A) : Prop :=
  forall w, exists l, calls (snd (m w)) = calls w ++ l /\ Forall P l.

(** The computation issues at most [n] calls. *)
Definition emitsAtMost {Ext A} (n : nat) (m : M Ext A) : Prop :=
  forall w, exists l, calls (snd (m w)) = calls w ++ l /\ (length l <= n)%nat.

(** The cache before and after the computation are related by [R]. *)
Definition cacheStep {Ext A} (R : gmap string Service -> gmap string Service -> Prop)
    (m : M Ext A) : Prop :=
  forall w, R (local w) (local (snd (m w))).

(** Storing, or removing, the service [svc] under its key is a step of [R]. *)
Definition setsOk (R : gmap string Service -> gmap string Service -> Prop)
    (svc : Service) : Prop :=
  forall c, R c (<[key svc := svc]> c).

Definition removesOk (R : gmap string Service -> gmap string Service -> Prop)
    (svc : Service) : Prop :=
  forall c, R c (base.delete (key svc) c).

(** Two caches that agree away from the key [k]. *)
Definition agreeOff (k : string) (c c' : gmap string Service) : Prop :=
  forall k', k' <> k -> c' !! k' = c !! k'.

(** Every entry is stored under the key of the service it holds. *)
Definition wellKeyed (c : gmap string Service) : Prop :=
  forall k svc, c !! k = Some svc -> key svc = k.

Definition keepsWellKeyed (c c' : gmap string Service) : Prop :=
  wellKeyed c -> wellKeyed c'.

Fixpoint hasSlash (s : string) : bool :=
  match s with
  | EmptyString => false
  | String c s' => Ascii.eqb c "/" || hasSlash s'
  end.

Fixpoint countSlash (s : string) : nat :=
  match s with
  | EmptyString => O
  | String c s' => (if Ascii.eqb c "/" then 1 else 0) + countSlash s'
  end.

Definition isDelete (c : Call) : bool :=
  match c with
  | CallEnsureLoadBalancerDeleted _ _ => true
  | _ => false
  end.

(** The calls [updateStatus] may issue for the service [svc] and the status
    [newm]. *)
Definition statusCall (svc : Service) (newm : LoadBalancerStatus) (c : Call) : Prop :=
  c = CallServicesGet (svcNamespace svc) (svcName svc) \/
  exists latest, c = CallServicesUpdateStatus (withStatus latest newm).

Definition requeueDelayOk (op : QueueOp) : Prop :=
  match op with
  | QueueAddAfter _ d => 5 * Second <= d <= 120 * Second
  | QueueDone _ => True
  end.

(** A call that is no ensure, or the ensure for [svc] with [nodes]. *)
Definition ensuresWith (cn : string) (svc : Service) (nodes : list Node)
    (c : Call) : Prop :=
  match c with
  | CallEnsureLoadBalancer cn' s ns => cn' = cn /\ s = svc /\ ns = nodes
  | _ => True
  end.

Definition withUnschedulable (node : Node) (flag : bool) : Node :=
  {| nodeName := nodeName node; nodeLabels := nodeLabels node;
     nodeUnschedulable := flag; nodeConditions := nodeConditions node |}.

Fixpoint hasChar (c : ascii) (s : string) : bool :=
  match s with
  | EmptyString => false
  | String a s' => Ascii.eqb a c || hasChar c s'
  end.

(** ** The node controller: the functions that compute

    [cloud-controller-manager/controller/node/controller.go].  A node object
    is given with the fields these functions read. *)

Record NodeAddress := mkNodeAddress {
  addrType : string;
  addrAddress : string
}.

Record Taint := mkTaint {
  taintKey : string;
  taintValue : string;
  taintEffect : string
}.

Record NodeObject := mkNodeObject {
  objName : string;
  objProviderID : string;
  objAnnotations : gmap string string;
  objTaints : list Taint;
  objAddresses : list NodeAddress;
  objConditions : list NodeCondition
}.

Definition MAX_BATCH_NUM : nat := 50.
Definition NodeHostName : string := "Hostname".
Definition TaintExternalCloudProvider : string :=
  "node.cloudprovider.kubernetes.io/uninitialized".
Definition AnnotationProvidedIPAddr : string :=
  "alpha.kubernetes.io/provided-node-ip".

(** The loop of [batchAddressUpdate], with the length of the list as fuel:
    every turn drops [MAX_BATCH_NUM] nodes. *)
Fixpoint batchLoop {S : Type} (fuel : nat) (nodes : list NodeObject)
    (batch : list NodeObject -> S -> option GoError * S) (s : S)
  : option GoError * S :=
  let last :=
    if (length nodes <=? 0)%nat then (None, s) else batch nodes s in
  match fuel with
  | O => last
  | Datatypes.S fuel' =>
      if (MAX_BATCH_NUM <? length nodes)%nat then
        match batch (take MAX_BATCH_NUM nodes) s with
        | (Some err, s') => (Some err, s')
        | (None, s') => batchLoop fuel' (drop MAX_BATCH_NUM nodes) batch s'
        end
      else last
  end.

Definition batchAddressUpdate {S : Type} (nodes : list NodeObject)
    (batch : list NodeObject -> S -> option GoError * S) (s : S)
  : option GoError * S :=
  batchLoop (length nodes) nodes batch s.

(** Running [batch] over the batches [bs] up to the first error. *)
Fixpoint runBatches {S : Type} (batch : list NodeObject -> S -> option GoError * S)
    (bs : list (list NodeObject)) (s : S) : option GoError * S :=
  match bs with
  | [] => (None, s)
  | b :: rest =>
      match batch b s with
      | (Some err, s') => (Some err, s')
      | (None, s') => runBatches batch rest s'
      end
  end.

Definition nodeids (nodes : list NodeObject) : list string :=
  map objProviderID nodes.

Definition isHostName (a : NodeAddress) : bool :=
  String.eqb (addrType a) NodeHostName.

Definition setHostnameAddress (node : NodeObject) (addrs : list NodeAddress)
  : list NodeAddress :=
  if existsb isHostName addrs then addrs
  else addrs ++ List.filter isHostName (objAddresses node).

(** The map from address type to address that [isNodeAddressChanged] fills:
    a later entry of a type replaces an earlier one. *)
Definition addressMap (addrs : list NodeAddress) : gmap string string :=
  foldl (fun m a => <[addrType a := addrAddress a]> m) ∅ addrs.

Definition isNodeAddressChanged (addr1 addr2 : list NodeAddress) : bool :=
  if negb (length addr1 =? length addr2)%nat then true
  else negb (bool_decide
               (map_Forall (fun k v => GoIndex (addressMap addr2) k = v)
                  (addressMap addr1))).

Definition isCloudTaint (t : Taint) : bool :=
  String.eqb (taintKey t) TaintExternalCloudProvider.

Definition findCloudTaint (taints : list Taint) : option Taint :=
  List.find isCloudTaint taints.

(** [Taint.MatchTaint] *)
Definition MatchTaint (t taintToMatch : Taint) : bool :=
  String.eqb (taintKey t) (taintKey taintToMatch) &&
  String.eqb (taintEffect t) (taintEffect taintToMatch).

Definition excludeTaintFromList (taints : list Taint) (toExclude : Taint)
  : list Taint :=
  List.filter (fun taint => negb (MatchTaint toExclude taint)) taints.

Definition withTaints (node : NodeObject) (taints : list Taint) : NodeObject :=
  {| objName := objName node; objProviderID := objProviderID node;
     objAnnotations := objAnnotations node; objTaints := taints;
     objAddresses := objAddresses node; objConditions := objConditions node |}.

Definition removeCloudTaints (node : NodeObject) : NodeObject :=
  match findCloudTaint (objTaints node) with
  | None => node
  | Some cloudTaint =>
      withTaints node (excludeTaintFromList (objTaints node) cloudTaint)
  end.

Definition isProvidedAddrExist (node : NodeObject) (nodeAddresses : list NodeAddress)
  : option NodeAddress * bool :=
  match objAnnotations node !! AnnotationProvidedIPAddr with
  | Some addr =>
      (List.find (fun a => String.eqb (addrAddress a) addr) nodeAddresses, true)
  | None => (None, false)
  end.

(** ** The node controller: the functions that call out *)

Record CloudNodeAttribute := mkCloudNodeAttribute {
  InstanceID : string;
  Addresses : list NodeAddress;
  InstanceType : string
}.

Definition RETRY_COUNT : nat := 5.

(** The calls of the node controller, in the order issued; [GoDeleteNode]
    is the start of the goroutine of [deleteNode]. *)
Inductive NodeCall :=
| CallListInstances (ids : list string)
| CallNodesGet (name : string)
| CallPatchNodeStatus (name : string) (old new : NodeObject)
| GoDeleteNode (name : string)
| CallNodeEventf (name eventtype reason message : string).

(** The cloud handle and the typed client of the node controller;
    [cloud_isCloudInstance] tells whether the cloud handle implements
    [CloudInstance].  A nil entry of the map of instances is an absent one. *)
Class NodeCollaborators (Ext : Type) := {
  cloud_isCloudInstance : bool;
  cloud_ListInstances :
    list string -> Ext -> (gmap string CloudNodeAttribute + GoError) * Ext;
  kclient_NodesGet : string -> Ext -> (NodeObject + GoError) * Ext;
  kclient_PatchNodeStatus :
    string -> NodeObject -> NodeObject -> Ext -> option GoError * Ext
}.

Record NodeWorld (Ext : Type) := mkNodeWorld {
  nodeExt : Ext;
  nodeCalls : list NodeCall
}.
Arguments mkNodeWorld {Ext}.
Arguments nodeExt {Ext}.
Arguments nodeCalls {Ext}.

Definition NM (Ext A : Type) : Type := NodeWorld Ext -> A * NodeWorld Ext.

Definition nret {Ext A} (a : A) : NM Ext A := fun w => (a, w).

Definition nbind {Ext A B} (m : NM Ext A) (k : A -> NM Ext B) : NM Ext B :=
  fun w => let '(a, w1) := m w in k a w1.

Declare Scope node_scope.
Delimit Scope node_scope with node.
Notation "x <- m ;; k" := (nbind m (fun x => k))
  (at level 62, m at next level, right associativity) : node_scope.

Definition nrecord {Ext} (c : NodeCall) : NM Ext unit :=
  fun w => (tt, {| nodeExt := nodeExt w; nodeCalls := nodeCalls w ++ [c] |}).

Definition ninvoke {Ext A} (c : NodeCall) (f : Ext -> A * Ext) : NM Ext A :=
  fun w => let '(a, e) := f (nodeExt w) in
           (a, {| nodeExt := e; nodeCalls := (nodeCalls w ++ [c]) |}).

Definition withAddresses (node : NodeObject) (addrs : list NodeAddress) : NodeObject :=
  {| objName := objName node; objProviderID := objProviderID node;
     objAnnotations := objAnnotations node; objTaints := objTaints node;
     objAddresses := addrs; objConditions := objConditions node |}.

Definition withCloudAddresses (cloudNode : CloudNodeAttribute)
    (addrs : list NodeAddress) : CloudNodeAttribute :=
  {| InstanceID := InstanceID cloudNode; Addresses := addrs;
     InstanceType := InstanceType cloudNode |}.

(** [helpers.GetNodeCondition] for the Ready condition *)
Definition readyCondition (node : NodeObject) : option NodeCondition :=
  List.find (fun cond => String.eqb (condType cond) NodeReady) (objConditions node).

Section NodeController.
Context {Ext : Type} `{NodeCollaborators Ext}.
Local Open Scope node_scope.

Definition tryPatchNodeAddress (node : NodeObject) (address : list NodeAddress)
  : NM Ext (option GoError) :=
  let clone := withAddresses node address in
  if negb (isNodeAddressChanged (objAddresses node) (objAddresses clone))
  then nret None
  else ninvoke (CallPatchNodeStatus (objName node) node clone)
         (kclient_PatchNodeStatus (objName node) node clone).

(** [deleteNode] starts a goroutine and returns. *)
Definition deleteNode (node : NodeObject) : NM Ext unit :=
  nrecord (GoDeleteNode (objName node)).

Fixpoint nodeConditionReadyLoop (rep : nat) (node : NodeObject)
  : NM Ext (option NodeCondition) :=
  match rep with
  | O => nret None
  | Datatypes.S rep' =>
      match readyCondition node with
      | Some ccondition => nret (Some ccondition)
      | None =>
          got <- ninvoke (CallNodesGet (objName node))
                   (kclient_NodesGet (objName node)) ;;
          match got with
          | inr _ => nret None
          | inl fetched => nodeConditionReadyLoop rep' fetched
          end
      end
  end.

Definition nodeConditionReady (node : NodeObject) : NM Ext (option NodeCondition) :=
  nodeConditionReadyLoop RETRY_COUNT node.

(** The body of the loop of [syncNodeAddress] for one node.  The addresses
    are stored into the instance the map holds, so a later node with the same
    provider id meets them. *)
Definition patchAndReport (node : NodeObject) (addrs : list NodeAddress)
  : NM Ext unit :=
  err <- tryPatchNodeAddress node addrs ;;
  match err with
  | Some e =>
      nrecord (CallNodeEventf (objName node) EventTypeWarning "SyncNodeFailed"
                 ("Error patching node address: " +:+ Error e))
  | None => nret tt
  end.

Fixpoint syncNodeAddressLoop (nodes : list NodeObject)
    (instances : gmap string CloudNodeAttribute) : NM Ext unit :=
  match nodes with
  | [] => nret tt
  | node :: rest =>
      match instances !! objProviderID node with
      | None => syncNodeAddressLoop rest instances
      | Some cloudNode =>
          let addrs := setHostnameAddress node (Addresses cloudNode) in
          match isProvidedAddrExist node addrs with
          | (None, true) =>
              syncNodeAddressLoop rest
                (<[objProviderID node := withCloudAddresses cloudNode addrs]> instances)
          | (Some nodeIP, true) =>
              _ <- patchAndReport node [nodeIP] ;;
              syncNodeAddressLoop rest
                (<[objProviderID node := withCloudAddresses cloudNode [nodeIP]]>
                   instances)
          | (_, false) =>
              _ <- patchAndReport node addrs ;;
              syncNodeAddressLoop rest
                (<[objProviderID node := withCloudAddresses cloudNode addrs]> instances)
          end
      end
  end.

Definition syncNodeAddress (nodes : list NodeObject) : NM Ext (option GoError) :=
  if negb cloud_isCloudInstance
  then nret (Some (Errorf "cloud instance not implemented"))
  else
    listed <- ninvoke (CallListInstances (nodeids nodes))
                (cloud_ListInstances (nodeids nodes)) ;;
    match listed with
    | inr e =>
        nret (Some (Errorf ("syncNodeAddress, retrieve instances from api error: "
                            +:+ Error e)))
    | inl instances =>
        _ <- syncNodeAddressLoop nodes instances ;;
        nret None
    end.

Fixpoint syncCloudNodesLoop (nodes : list NodeObject)
    (instances : gmap string CloudNodeAttribute) : NM Ext unit :=
  match nodes with
  | [] => nret tt
  | node :: rest =>
      condition <- nodeConditionReady node ;;
      match condition with
      | None => syncCloudNodesLoop rest instances
      | Some condition =>
          if String.eqb (condStatus condition) ConditionTrue
          then syncCloudNodesLoop rest instances
          else
            match instances !! objProviderID node with
            | Some _ => syncCloudNodesLoop rest instances
            | None =>
                _ <- deleteNode node ;;
                syncCloudNodesLoop rest instances
            end
      end
  end.

Definition syncCloudNodes (nodes : list NodeObject) : NM Ext (option GoError) :=
  if negb cloud_isCloudInstance
  then nret (Some (Errorf "cloud instance not implemented"))
  else
    listed <- ninvoke (CallListInstances (nodeids nodes))
                (cloud_ListInstances (nodeids nodes)) ;;
    match listed with
    | inr e =>
        nret (Some (Errorf ("syncCloudNodes, retrieve instances from api error: "
                            +:+ Error e)))
    | inl instances =>
        _ <- syncCloudNodesLoop nodes instances ;;
        nret None
    end.
End NodeController.

(** Every call of the computation satisfies [P]. *)
Definition nodeEmitsOnly {Ext A} (P : NodeCall -> Prop) (m : NM Ext A) : Prop :=
  forall w, exists l, nodeCalls (snd (m w)) = nodeCalls w ++ l /\ Forall P l.

(** What [syncCloudNodes] may do for the nodes [nodes] when the cloud
    lists [instances]: a call that deletes nothing, or the start of the
    deletion of a node of the list that the cloud does not list and whose own
    Ready condition, if it has one, is not True. *)
Definition deletesOnlyLost (nodes : list NodeObject)
    (instances : gmap string CloudNodeAttribute) (c : NodeCall) : Prop :=
  match c with
  | GoDeleteNode name =>
      exists node,
        In node nodes /\ objName node = name /\
        instances !! objProviderID node = None /\
        (forall cond, readyCondition node = Some cond ->
                      condStatus cond <> ConditionTrue)
  | CallPatchNodeStatus _ _ _ => False
  | _ => True
  end.

(** What [syncNodeAddress] may do for the nodes [nodes]: a call that is not
    a deletion, or a patch of a node of the list with addresses that differ
    from the ones it has. *)
Definition patchesOnlyChanged (nodes : list NodeObject) (c : NodeCall) : Prop :=
  match c with
  | GoDeleteNode _ => False
  | CallPatchNodeStatus name old new =>
      In old nodes /\ name = objName old /\
      new = withAddresses old (objAddresses new) /\
      isNodeAddressChanged (objAddresses old) (objAddresses new) = true
  | _ => True
  end.

(** ** Further examples *)

Definition exampleFilters : EventFilters :=
  {| NeedAdd := fun svc => String.eqb (svcType svc) "LoadBalancer";
     NeedDelete := fun svc => String.eqb (svcType svc) "LoadBalancer";
     IsExcludedNode := fun _ => false |}.

(** The cache remembers the service that the lister no longer knows. *)
Definition rememberedWorld : World Script :=
  startWorld goneScript {[ "default/web" := lbService ]}.

(** A second service, and a cache that holds both while the lister knows
    neither. *)
Definition dnsService : Service :=
  {| svcNamespace := "kube-system"; svcName := "dns"; svcUID := "D";
     svcLabels := ∅; svcAnnotations := ∅; svcType := "LoadBalancer";
     svcExternalTrafficPolicy := "Cluster"; svcStatus := {| Ingress := [] |} |}.

Definition crowdedWorld : World Script :=
  startWorld goneScript
    (<[ "kube-system/dns" := dnsService ]> {[ "default/web" := lbService ]}).

(** A cloud backend that is out of service: every operation fails, whatever
    state it is asked in. *)
Definition outage : Collaborators unit :=
  {| cloud_GetLoadBalancer := fun _ _ s => ((false, Some (Errorf "ServiceUnavailable")), s);
     cloud_EnsureLoadBalancer := fun _ _ _ s =>
       ((None, Some (Errorf "ServiceUnavailable")), s);
     cloud_EnsureLoadBalancerDeleted := fun _ _ s =>
       (Some (Errorf "Message: ServiceUnavailable"), s);
     client_ServicesGet := fun _ _ s => (inr (Errorf "unused"), s);
     client_ServicesUpdateStatus := fun _ s => (None, s);
     client_ServicesPatch := fun _ _ s => (None, s);
     lister_ServicesGet := fun _ _ _ => (None, None);
     lister_NodesList := fun _ => ([], None) |}.

Definition outageWorld : World unit := {| ext := tt; local := ∅; calls := [] |}.

(** The cloud backend rejects the ensure operation. *)
Definition rejectingScript : Script :=
  {| onGetLoadBalancer := (false, None);
     onEnsureLoadBalancer := (None, Some (Errorf "InvalidParameter"));
     onEnsureLoadBalancerDeleted := None;
     onServicesGet := inr (Errorf "unused");
     onServicesUpdateStatus := None;
     onServicesPatch := None;
     listedService := (Some lbService, None);
     listedNodes := ([ readyNode "worker-1" ∅ ], None) |}.

Definition webEndpoints : Endpoints :=
  {| epNamespace := "default"; epName := "web";
     epSubsets := [ [ {| epIP := "172.16.0.7"; epNodeName := Some "worker-1" |} ] ] |}.

Definition notReadyNode : Node :=
  {| nodeName := "worker-2"; nodeLabels := ∅; nodeUnschedulable := false;
     nodeConditions := [ {| condType := NodeReady; condStatus := "False" |} ] |}.

Definition optInService : Service :=
  {| svcNamespace := "default"; svcName := "web"; svcUID := "B";
     svcLabels := ∅;
     svcAnnotations :=
       {[ "service.beta.kubernetes.io/alibaba-cloud-loadbalancer-remove-unscheduled-backend"
          := "on" ]};
     svcType := "LoadBalancer"; svcExternalTrafficPolicy := "Cluster";
     svcStatus := {| Ingress := [] |} |}.

Record NodeScript := mkNodeScript {
  onListInstances : gmap string CloudNodeAttribute + GoError;
  onNodesGet : NodeObject + GoError;
  onPatchNodeStatus : option GoError
}.

Definition nodeScripted : NodeCollaborators NodeScript :=
  {| cloud_isCloudInstance := true;
     cloud_ListInstances := fun _ s => (onListInstances s, s);
     kclient_NodesGet := fun _ s => (onNodesGet s, s);
     kclient_PatchNodeStatus := fun _ _ _ s => (onPatchNodeStatus s, s) |}.

Definition cloudTaint : Taint :=
  {| taintKey := TaintExternalCloudProvider; taintValue := "true";
     taintEffect := "NoSchedule" |}.

Definition otherTaint : Taint :=
  {| taintKey := "dedicated"; taintValue := "gpu"; taintEffect := "NoSchedule" |}.

Definition internalIP : NodeAddress :=
  {| addrType := "InternalIP"; addrAddress := "192.168.0.5" |}.

Definition hostName : NodeAddress :=
  {| addrType := NodeHostName; addrAddress := "worker-1" |}.

(** A node that reports not ready and that the cloud does not list. *)
Definition lostNode : NodeObject :=
  {| objName := "worker-9"; objProviderID := "cn-hangzhou.i-lost";
     objAnnotations := ∅; objTaints := [cloudTaint; otherTaint];
     objAddresses := [hostName];
     objConditions := [ {| condType := NodeReady; condStatus := "Unknown" |} ] |}.

(** A node that the cloud lists, and that announces the address it wants. *)
Definition knownNode : NodeObject :=
  {| objName := "worker-1"; objProviderID := "cn-hangzhou.i-known";
     objAnnotations := {[ AnnotationProvidedIPAddr := "192.168.0.5" ]};
     objTaints := []; objAddresses := [hostName];
     objConditions := [ {| condType := NodeReady; condStatus := ConditionTrue |} ] |}.

Definition oneInstance : NodeScript :=
  {| onListInstances :=
       inl {[ "cn-hangzhou.i-known" :=
                {| InstanceID := "i-known"; Addresses := [internalIP];
                   InstanceType := "ecs.g6.large" |} ]};
     onNodesGet := inr (Errorf "unused");
     onPatchNodeStatus := None |}.

Definition startNodeWorld (s : NodeScript) : NodeWorld NodeScript :=
  {| nodeExt := s; nodeCalls := [] |}.

(** * Properties *)

(** ** RequeueBackoff *)

Lemma Next_capped (now : Time) (b : RequeueBackoff) :
  fst (Next now b) <= 120 * Second.
Proof.
  unfold Next; cbv zeta; cbn [fst].
  destruct (120 * Second <? multiplied b) eqn:E.
  - unfold Second, Nanosecond; lia.
  - apply Z.ltb_ge in E. exact E.
Qed.

Lemma Next_plateau (now : Time) (b : RequeueBackoff) :
  120 * Second < multiplied b -> fst (Next now b) = 30 * Second.
Proof.
  intros Hm. unfold Next; cbv zeta; cbn [fst].
  apply Z.ltb_lt in Hm. rewrite Hm. reflexivity.
Qed.

(** C10. In every state of a RequeueBackoff with positive delay, the value
    [Next()] returns is at most 120 seconds, and it is exactly 30 seconds
    whenever the multiplied delay exceeds 120 seconds. *)
Theorem Next_bounded_with_plateau (now : Time) (b : RequeueBackoff) :
  0 < next b ->
  fst (Next now b) <= 120 * Second /\
  (120 * Second < multiplied b -> fst (Next now b) = 30 * Second).
Proof.
  intros _. split; [apply Next_capped | apply Next_plateau].
Qed.

Lemma Next_bounded_with_plateau_witness :
  0 < next nearCeiling /\
  120 * Second < multiplied nearCeiling /\
  fst (Next (1 * Second) nearCeiling) = 30 * Second.
Proof.
  assert (Hpos : 0 < next nearCeiling) by reflexivity.
  assert (Hm : 120 * Second < multiplied nearCeiling) by (vm_compute; reflexivity).
  split; [exact Hpos | split; [exact Hm |]].
  exact (proj2 (Next_bounded_with_plateau (1 * Second) nearCeiling Hpos) Hm).
Defined.

Lemma workerState_Next (now : Time) (b : RequeueBackoff) :
  workerState b ->
  workerState (snd (Next now b)) /\
  (next b < fst (Next now b) \/ fst (Next now b) = 30 * Second).
Proof.
  destruct b as [l n f]. unfold workerState; simpl.
  intros [-> Hin].
  unfold workerDelays in Hin; simpl in Hin.
  repeat (destruct Hin as [<- | Hin];
          [vm_compute; intuition (auto 20; congruence) |]).
  contradiction.
Qed.

Lemma workerState_resetTick (now : Time) (b : RequeueBackoff) :
  workerState b -> workerState (resetTick now b).
Proof.
  intros [Hf Hin]. unfold resetTick.
  destruct (last b + 1 * Minute <? now); [| now split].
  split; [exact Hf | simpl; left; reflexivity].
Qed.

Lemma WorkerReachable_state (b : RequeueBackoff) :
  WorkerReachable b -> workerState b.
Proof.
  induction 1 as [now | b ev _ IH].
  - split; [reflexivity | left; reflexivity].
  - destruct ev as [now | now]; simpl.
    + apply workerState_Next, IH.
    + apply workerState_resetTick, IH.
Qed.

Lemma Nexts_cons (now : Time) (nows : list Time) (b : RequeueBackoff) :
  fst (Nexts (now :: nows) b) =
  fst (Next now b) :: fst (Nexts nows (snd (Next now b))).
Proof.
  cbn [Nexts]. destruct (Next now b) as [d b1]. cbn [fst snd].
  destruct (Nexts nows b1). reflexivity.
Qed.

Lemma Nexts_capped (nows : list Time) (b : RequeueBackoff) :
  Forall (fun d => d <= 120 * Second) (fst (Nexts nows b)).
Proof.
  revert b. induction nows as [| now nows IH]; intros b.
  - constructor.
  - rewrite Nexts_cons. constructor; [apply Next_capped | apply IH].
Qed.

Lemma workerState_Nexts (nows : list Time) (b : RequeueBackoff) :
  workerState b ->
  sawtooth (next b :: fst (Nexts nows b)) = true.
Proof.
  revert b. induction nows as [| now nows IH]; intros b Hb.
  - reflexivity.
  - rewrite Nexts_cons.
    destruct (workerState_Next now b Hb) as [Hb1 Hstep].
    pose proof (IH _ Hb1) as Hsaw.
    assert (Hn : next (snd (Next now b)) = fst (Next now b)) by reflexivity.
    rewrite Hn in Hsaw.
    change (sawtooth (next b :: fst (Next now b) :: ?l))
      with (((next b <? fst (Next now b)) || (fst (Next now b) =? 30 * Second))
            && sawtooth (fst (Next now b) :: l)).
    rewrite Hsaw, andb_true_r.
    destruct Hstep as [Hlt | Heq].
    + apply Z.ltb_lt in Hlt. rewrite Hlt. reflexivity.
    + apply Z.eqb_eq in Heq. rewrite Heq. apply orb_true_r.
Qed.

(** The claim C5 fails: the eighth of eight successive calls on a fresh
    worker backoff returns less than the seventh. *)
Lemma Nexts_not_monotone :
  fst (Nexts eightCalls (workerBackoff 0)) =
    [7500000000; 11250000000; 16875000000; 25312500000; 37968750000;
     56953125000; 85429687500; 30000000000] /\
  nonDecreasing (fst (Nexts eightCalls (workerBackoff 0))) = false.
Proof. split; vm_compute; reflexivity. Qed.

(** C5, amended. For every RequeueBackoff and every N, N successive calls
    of [Next()] with nothing in between return delays of at most 120 seconds.
    The delays need not grow: for the backoff a worker creates (floor 5
    seconds, factor 1.5), in any state it can reach, each delay is larger
    than the delay before it or is the plateau of 30 seconds to which the
    delay falls back once the multiplied delay passes 120 seconds. *)
Theorem Nexts_capped_sawtooth (nows : list Time) (b : RequeueBackoff) :
  Forall (fun d => d <= 120 * Second) (fst (Nexts nows b)) /\
  (WorkerReachable b -> sawtooth (next b :: fst (Nexts nows b)) = true).
Proof.
  split.
  - apply Nexts_capped.
  - intros Hb. apply workerState_Nexts, WorkerReachable_state, Hb.
Qed.

Lemma Nexts_capped_sawtooth_witness :
  WorkerReachable (workerBackoff 0) /\
  sawtooth (next (workerBackoff 0) :: fst (Nexts eightCalls (workerBackoff 0))) = true.
Proof.
  split; [apply reach_new |].
  exact (proj2 (Nexts_capped_sawtooth eightCalls (workerBackoff 0)) (reach_new 0)).
Defined.

(** The claim C6 fails: after the reset, [Next()] does not return the floor
    of 5 seconds. *)
Lemma Next_after_reset_not_floor :
  last (workerBackoff 0) + 1 * Minute < 61 * Second /\
  next (resetTick (61 * Second) (workerBackoff 0)) = 5 * Second /\
  fst (Next (62 * Second) (resetTick (61 * Second) (workerBackoff 0)))
    = 7500000000 /\
  fst (Next (62 * Second) (resetTick (61 * Second) (workerBackoff 0)))
    <> 5 * Second.
Proof. repeat split; vm_compute; congruence. Qed.

(** C6, amended. For the backoff a worker creates, in any state it can
    reach: when the ticker fires more than one minute after the last recorded
    throttle observation, the delay is reset to 5 seconds, the floor the
    backoff was created with, and the next call of [Next()] returns that
    floor multiplied by the factor, 7.5 seconds. *)
Theorem resetTick_then_Next (b : RequeueBackoff) (now now' : Time) :
  WorkerReachable b ->
  last b + 1 * Minute < now ->
  next (resetTick now b) = next (workerBackoff 0) /\
  fst (Next now' (resetTick now b)) = 7500000000.
Proof.
  intros Hb Hquiet.
  destruct (WorkerReachable_state b Hb) as [Hf _].
  unfold resetTick. apply Z.ltb_lt in Hquiet. rewrite Hquiet.
  split; [reflexivity |].
  unfold Next, multiplied; cbn [fst next factor]. rewrite Hf.
  vm_compute. reflexivity.
Qed.

Lemma resetTick_then_Next_witness :
  next (resetTick (61 * Second) (workerBackoff 0)) = 5 * Second /\
  fst (Next (62 * Second) (resetTick (61 * Second) (workerBackoff 0)))
    = 7500000000.
Proof.
  apply (resetTick_then_Next (workerBackoff 0) (61 * Second) (62 * Second)).
  - apply reach_new.
  - vm_compute. reflexivity.
Defined.

(** ** The eligibility predicate *)

(** The claim C1 fails in both halves: a ready master node is eligible for a
    service with policy Local and ineligible for one with policy Cluster. *)
Lemma predicate_master_counterexample :
  nodeLabels masterNode !! LabelNodeRoleMaster = Some EmptyString /\
  @predicate exampleFiles
    (exampleService "A" "LoadBalancer" ServiceExternalTrafficPolicyTypeLocal
       {| Ingress := [] |}) masterNode = true /\
  @predicate exampleFiles
    (exampleService "A" "LoadBalancer" ServiceExternalTrafficPolicyTypeCluster
       {| Ingress := [] |}) masterNode = false.
Proof. repeat split; vm_compute; reflexivity. Qed.

Section EligibilityProperties.
Context `{OtherFiles}.

Lemma master_excluded_under_cluster (svc : Service) (node : Node) (v : string) :
  nodeLabels node !! LabelNodeRoleMaster = Some v ->
  svcExternalTrafficPolicy svc = ServiceExternalTrafficPolicyTypeCluster ->
  predicate svc node = false.
Proof.
  intros Hm Hp. unfold predicate.
  destruct (nodeUnschedulable node && _); [reflexivity |].
  rewrite Hm, Hp, bool_decide_eq_true_2 by eauto.
  reflexivity.
Qed.

Lemma master_label_ignored_otherwise (svc : Service) (node : Node) :
  svcExternalTrafficPolicy svc <> ServiceExternalTrafficPolicyTypeCluster ->
  predicate svc node = predicate svc (withoutLabel node LabelNodeRoleMaster).
Proof.
  intros Hp. unfold predicate, withoutLabel; cbn [nodeUnschedulable nodeLabels nodeConditions].
  apply String.eqb_neq in Hp. rewrite Hp, !andb_false_r.
  rewrite lookup_delete_ne by discriminate.
  reflexivity.
Qed.

(** C1, amended. For every service and every node carrying the master role
    label, the predicate deems the node ineligible when the external
    traffic policy of the service is Cluster; when the policy is Local the
    label does not exclude the node, which is judged as the same node
    without the label is: by the unschedulable opt-in, the virtual-node
    label and the readiness conditions. *)
Theorem predicate_master (svc : Service) (node : Node) (v : string) :
  nodeLabels node !! LabelNodeRoleMaster = Some v ->
  (svcExternalTrafficPolicy svc = ServiceExternalTrafficPolicyTypeCluster ->
   predicate svc node = false) /\
  (svcExternalTrafficPolicy svc = ServiceExternalTrafficPolicyTypeLocal ->
   predicate svc node = predicate svc (withoutLabel node LabelNodeRoleMaster)).
Proof.
  intros Hm. split; intros Hp.
  - eapply master_excluded_under_cluster; eauto.
  - apply master_label_ignored_otherwise. rewrite Hp. discriminate.
Qed.
End EligibilityProperties.

Lemma predicate_master_witness :
  nodeLabels masterNode !! LabelNodeRoleMaster = Some EmptyString /\
  @predicate exampleFiles
    (exampleService "A" "LoadBalancer" ServiceExternalTrafficPolicyTypeCluster
       {| Ingress := [] |}) masterNode = false /\
  @predicate exampleFiles
    (exampleService "A" "LoadBalancer" ServiceExternalTrafficPolicyTypeLocal
       {| Ingress := [] |}) masterNode
  = @predicate exampleFiles
      (exampleService "A" "LoadBalancer" ServiceExternalTrafficPolicyTypeLocal
         {| Ingress := [] |}) (withoutLabel masterNode LabelNodeRoleMaster).
Proof.
  assert (Hm : nodeLabels masterNode !! LabelNodeRoleMaster = Some EmptyString)
    by (vm_compute; reflexivity).
  split; [exact Hm | split].
  - exact (proj1 (@predicate_master exampleFiles
                    (exampleService "A" "LoadBalancer"
                       ServiceExternalTrafficPolicyTypeCluster {| Ingress := [] |})
                    masterNode EmptyString Hm) eq_refl).
  - exact (proj2 (@predicate_master exampleFiles
                    (exampleService "A" "LoadBalancer"
                       ServiceExternalTrafficPolicyTypeLocal {| Ingress := [] |})
                    masterNode EmptyString Hm) eq_refl).
Defined.

(** ** The retry helper, the reconciler and the worker *)

Section ReconcilerProperties.
Context `{OtherFiles} {Ext : Type} `{Collaborators Ext}.

(** C9. When the sync task fails with an error whose text does not contain
    [Throttling], the worker requeues the key after 5 seconds and its
    RequeueBackoff is what it was.  When the text contains [Throttling],
    the worker calls [Next()] once: the delay of the requeue is the value of
    that call and the backoff is the one the call leaves, and for the backoff
    of a worker this delay is larger than the delay the backoff held, or is
    the 30 seconds to which [Next()] falls back.  The backoff changes in a
    turn only in this way: only a throttling error invokes [Next()]. *)
Theorem workerTurn_requeue (syncd : SyncTask) (item : string) (now : Time)
    (back : RequeueBackoff) (w : World Ext) :
  (forall e w',
      syncd item w = (Some e, w') ->
      Contains (Error e) "Throttling" = false ->
      workerTurn syncd (item, false) now back w
      = (([QueueAddAfter item (5 * Second); QueueDone item], back), w')) /\
  (forall e w',
      syncd item w = (Some e, w') ->
      Contains (Error e) "Throttling" = true ->
      workerTurn syncd (item, false) now back w
      = (([QueueAddAfter item (fst (Next now back)); QueueDone item],
          snd (Next now back)), w') /\
      (workerState back ->
       next back < fst (Next now back) \/ fst (Next now back) = 30 * Second)) /\
  (forall ops back' w',
      workerTurn syncd (item, false) now back w = ((ops, back'), w') ->
      back' <> back ->
      exists e,
        syncd item w = (Some e, w') /\
        Contains (Error e) "Throttling" = true /\
        back' = snd (Next now back) /\
        ops = [QueueAddAfter item (fst (Next now back)); QueueDone item]).
Proof.
  unfold workerTurn, bind, ret. split; [| split].
  - intros e w' Hsync Hnot. rewrite Hsync, Hnot. reflexivity.
  - intros e w' Hsync Hthr. rewrite Hsync, Hthr. split.
    + destruct (Next now back) as [d back1]. reflexivity.
    + intros [Hfactor Hin]. unfold Next, multiplied. rewrite Hfactor.
      destruct back as [l n f]. cbn [next factor] in *.
      unfold workerDelays in Hin. cbn [In] in Hin.
      repeat (destruct Hin as [<- | Hin];
              [vm_compute; first [left; reflexivity | right; reflexivity] |]).
      contradiction.
  - intros ops back' w' Hturn Hchanged.
    destruct (syncd item w) as [[e |] w1].
    + destruct (Contains (Error e) "Throttling") eqn:Hthr.
      * destruct (Next now back) as [d back1] eqn:Hnext.
        injection Hturn as <- <- <-. exists e. auto.
      * injection Hturn as <- <- <-. contradiction.
    + injection Hturn as <- <- <-. contradiction.
Qed.

(** C7. When the lister reports the service of a key as not found and the
    cache holds nothing for the key, [ServiceSyncTask] returns nil and
    leaves the world as it was: no call is issued, to the cloud backend or
    elsewhere. *)
Theorem ServiceSyncTask_unknown_deletion (con : Controller) (k ns name : string)
    (w : World Ext) :
  SplitMetaNamespaceKey k = inl (ns, name) ->
  IsNotFound (snd (lister_ServicesGet ns name (ext w))) = true ->
  local w !! k = None ->
  ServiceSyncTask con k w = (None, w) /\
  List.filter isCloudCall (callsSince w (snd (ServiceSyncTask con k w))) = [].
Proof.
  intros Hkey Hnf Hcache.
  assert (Hrun : ServiceSyncTask con k w = (None, w)).
  { unfold ServiceSyncTask, bind, ret, contextGet, observe.
    rewrite Hkey, Hcache.
    destruct (lister_ServicesGet ns name (ext w)) as [service err].
    cbn [snd] in Hnf. rewrite Hnf. reflexivity. }
  split; [exact Hrun |].
  rewrite Hrun. unfold callsSince. cbn [snd].
  rewrite drop_all. reflexivity.
Qed.
End ReconcilerProperties.

Lemma workerTurn_requeue_witness :
  workerTurn throttlingFree ("default/web", false) (7 * Second) (workerBackoff 0)
    (startWorld quietScript ∅)
  = (([QueueAddAfter "default/web" (5 * Second); QueueDone "default/web"],
      workerBackoff 0), startWorld quietScript ∅) /\
  workerTurn throttled ("default/web", false) (7 * Second) (workerBackoff 0)
    (startWorld quietScript ∅)
  = (([QueueAddAfter "default/web" 7500000000; QueueDone "default/web"],
      {| last := 7 * Second; next := 7500000000; factor := workerFactor |}),
     startWorld quietScript ∅) /\
  (next (workerBackoff 0) < fst (Next (7 * Second) (workerBackoff 0)) \/
   fst (Next (7 * Second) (workerBackoff 0)) = 30 * Second).
Proof.
  pose proof (workerTurn_requeue throttlingFree "default/web" (7 * Second)
                (workerBackoff 0) (startWorld quietScript ∅)) as Hplain.
  pose proof (workerTurn_requeue throttled "default/web" (7 * Second)
                (workerBackoff 0) (startWorld quietScript ∅)) as Hthrottled.
  split; [| split].
  - apply (proj1 Hplain (Errorf "ensure loadbalancer error: boom")).
    + reflexivity.
    + vm_compute. reflexivity.
  - apply (proj1 (proj1 (proj2 Hthrottled)
                    (Errorf "ensure loadbalancer error: Throttling.User")
                    (startWorld quietScript ∅) eq_refl eq_refl)).
  - apply (proj2 (proj1 (proj2 Hthrottled)
                    (Errorf "ensure loadbalancer error: Throttling.User")
                    (startWorld quietScript ∅) eq_refl eq_refl)).
    split; [reflexivity | left; reflexivity].
Defined.

Lemma ServiceSyncTask_unknown_deletion_witness :
  @ServiceSyncTask exampleFiles Script scripted exampleController "default/web"
    (startWorld goneScript ∅)
  = (None, startWorld goneScript ∅).
Proof.
  apply (@ServiceSyncTask_unknown_deletion exampleFiles Script scripted
           exampleController "default/web" "default" "web"
           (startWorld goneScript ∅)).
  - vm_compute. reflexivity.
  - vm_compute. reflexivity.
  - vm_compute. reflexivity.
Defined.

Section RetryProperties.
Context `{OtherFiles} {Ext : Type} `{Collaborators Ext}.

Lemma appends_ret {A} (a : A) : appends (@ret Ext A a).
Proof. intros w. exists []. simpl. now rewrite app_nil_r. Qed.

Lemma appends_bind {A B} (m : M Ext A) (k : A -> M Ext B) :
  appends m -> (forall a, appends (k a)) -> appends (bind m k).
Proof.
  intros Hm Hk w. unfold bind.
  destruct (Hm w) as [l1 Hl1]. destruct (m w) as [a w1]. simpl in Hl1.
  destruct (Hk a w1) as [l2 Hl2].
  exists (l1 ++ l2). rewrite Hl2, Hl1. now rewrite app_assoc.
Qed.

Lemma appends_invoke {A} (c : Call) (f : Ext -> A * Ext) : appends (invoke c f).
Proof.
  intros w. exists [c]. unfold invoke, bind, record, external. simpl.
  now destruct (f (ext w)).
Qed.

Lemma appends_attempts (n : nat) (condition : M Ext (bool * option GoError)) :
  appends condition -> appends (attempts n condition).
Proof.
  intros Hc. induction n as [| n IH]; simpl.
  - apply appends_ret.
  - apply appends_bind; [exact Hc |].
    intros [[|] [e |]]; auto using appends_ret.
Qed.

Lemma appends_retry (backoff : option WaitBackoff)
    (fun_ : Service -> M Ext (option GoError)) (svc : Service) :
  appends (fun_ svc) -> appends (retry backoff fun_ svc).
Proof.
  intros Hf. unfold retry, ExponentialBackoff.
  apply appends_attempts, appends_bind; [exact Hf |].
  intros [e |]; [destruct (Contains _ _) |]; apply appends_ret.
Qed.

Lemma appends_persistStatus (newm : LoadBalancerStatus) (svc : Service) :
  appends (persistStatus newm svc).
Proof.
  unfold persistStatus.
  apply appends_bind; [apply appends_invoke |].
  intros [latest | e]; [| apply appends_ret].
  apply appends_bind; [apply appends_invoke |].
  intros [e |]; [| apply appends_ret].
  destruct (IsNotFound _); [apply appends_ret |].
  destruct (IsConflict _); apply appends_ret.
Qed.

(** The condition that [retry] builds never reports an error itself, so
    the error of [fun_] is never what [retry] returns. *)
Lemma attempts_result (n : nat) (condition : M Ext (bool * option GoError)) :
  (forall w, snd (fst (condition w)) = None) ->
  forall w, fst (attempts n condition w) = None \/
            fst (attempts n condition w) = Some ErrWaitTimeout.
Proof.
  intros Hc. induction n as [| n IH]; intros w; simpl.
  - right. reflexivity.
  - unfold bind. specialize (Hc w).
    destruct (condition w) as [[ok err] w1]. simpl in Hc. subst err.
    destruct ok; [left; reflexivity | apply IH].
Qed.

Lemma retry_result (backoff : option WaitBackoff)
    (fun_ : Service -> M Ext (option GoError)) (svc : Service) (w : World Ext) :
  fst (retry backoff fun_ svc w) = None \/
  fst (retry backoff fun_ svc w) = Some ErrWaitTimeout.
Proof.
  unfold retry, ExponentialBackoff. apply attempts_result.
  intros w0. unfold bind.
  destruct (fun_ svc w0) as [[e |] w1]; [destruct (Contains _ _) |]; reflexivity.
Qed.

(** An error without the sentinel ends [retry] at once, with nil. *)
Lemma retry_swallows (backoff : option WaitBackoff)
    (fun_ : Service -> M Ext (option GoError)) (svc : Service)
    (w w' : World Ext) (e : GoError) :
  0 < wbSteps (default defaultBackoff backoff) ->
  fun_ svc w = (Some e, w') ->
  Contains (Error e) TRY_AGAIN = false ->
  retry backoff fun_ svc w = (None, w').
Proof.
  intros Hsteps Hfun Hplain. unfold retry, ExponentialBackoff.
  replace (match backoff with None => defaultBackoff | Some b => b end)
    with (default defaultBackoff backoff) by now destruct backoff.
  destruct (Z.to_nat (wbSteps (default defaultBackoff backoff))) as [| n] eqn:Hn;
    [lia |].
  simpl. unfold bind. rewrite Hfun, Hplain. reflexivity.
Qed.

Lemma delete_outcome (con : Controller) (svc : Service) (w : World Ext) :
  (fst (delete con svc w) = None /\
   local (snd (delete con svc w)) !! key svc = None) \/
  fst (delete con svc w) = Some (Errorf TRY_AGAIN).
Proof.
  unfold delete, invoke, bind, ret, record, external, Eventf, contextRemove.
  simpl.
  destruct (cloud_EnsureLoadBalancerDeleted _ _ _) as [[e |] x]; simpl.
  - right. reflexivity.
  - left. split; [reflexivity | apply lookup_delete_eq].
Qed.

(** A successful [retry] of [delete] ends with the cache entry removed. *)
Lemma retry_delete_success (con : Controller) (svc : Service) (w w' : World Ext) :
  retry None (delete con) svc w = (None, w') ->
  local w' !! key svc = None.
Proof.
  unfold retry, ExponentialBackoff.
  generalize (Z.to_nat (wbSteps defaultBackoff)) as n.
  intros n. revert w. induction n as [| n IH]; intros w; simpl.
  - unfold ret. discriminate.
  - unfold bind at 1 2.
    pose proof (delete_outcome con svc w) as Hd.
    destruct (delete con svc w) as [[e |] w1]; simpl in Hd.
    + destruct Hd as [[Hd _] | Hd]; [discriminate |].
      injection Hd as ->.
      replace (Contains (Error (Errorf TRY_AGAIN)) TRY_AGAIN) with true
        by (vm_compute; reflexivity).
      unfold ret at 1. apply IH.
    + destruct Hd as [[_ Hd] | Hd]; [| discriminate].
      unfold ret. intros [= <-]. exact Hd.
Qed.
End RetryProperties.

Section UpdateProperties.
Context `{OtherFiles} {Ext : Type} `{Collaborators Ext}.

Lemma finishUpdate_success (svc : Service) (pre : LoadBalancerStatus)
    (newm : option LoadBalancerStatus) (w w' : World Ext) :
  finishUpdate svc pre newm w = (None, w') ->
  local w' !! key svc = Some svc /\
  exists w1, updateStatus svc pre newm w = (None, w1) /\ calls w' = calls w1.
Proof.
  unfold finishUpdate, bind, ret, contextSet.
  destruct (updateStatus svc pre newm w) as [[e |] w1]; intros [= <-].
  split; [apply lookup_insert_eq | eauto].
Qed.

(** Whenever [update] succeeds past the UID check, it ends by storing the
    service in the cache, whether or not the service needs a load
    balancer. *)
Lemma update_success_cached (con : Controller) (cached : option Service)
    (svc : Service) (w w' : World Ext) :
  uidChanged cached svc = false ->
  update con cached svc w = (None, w') ->
  local w' !! key svc = Some svc.
Proof.
  intros Huid. unfold update. rewrite Huid.
  destruct (NeedLoadBalancer svc); cbn [negb].
  - unfold bind at 1.
    destruct (AvailableNodes svc w) as [[nodes [e |]] w1]; [discriminate |].
    unfold bind at 1.
    match goal with
    | |- context [(if ?c then ?a else ?b) w1] =>
        destruct ((if c then a else b) w1) as [[] w2]
    end.
    unfold bind at 1.
    destruct (invoke _ _ w2) as [[newm [e |]] w3].
    + unfold bind, Eventf, record, ret. discriminate.
    + unfold bind at 1. destruct (Eventf _ _ _ _ w3) as [[] w4].
      unfold bind at 1. destruct (addServiceHash svc w4) as [[e |] w5];
        [discriminate |].
      intros Hfin. apply finishUpdate_success in Hfin. tauto.
  - unfold bind at 1.
    destruct (invoke _ _ w) as [[exits [e |]] w1]; [discriminate |].
    unfold bind at 1.
    match goal with
    | |- context [(if exits then ?a else ?b) w1] =>
        destruct ((if exits then a else b) w1) as [[e |] w2]; [discriminate |]
    end.
    unfold bind at 1.
    destruct (removeServiceHash svc w2) as [[e |] w3]; [discriminate |].
    intros Hfin. apply finishUpdate_success in Hfin. tauto.
Qed.
End UpdateProperties.

Section CallLog.
Context `{OtherFiles} {Ext : Type} `{Collaborators Ext}.
Variable p : Call -> bool.

Lemma avoids_ret {A} (a : A) : avoids p (@ret Ext A a).
Proof. intros w. exists []. simpl. rewrite app_nil_r. auto. Qed.

Lemma avoids_bind {A B} (m : M Ext A) (k : A -> M Ext B) :
  avoids p m -> (forall a, avoids p (k a)) -> avoids p (bind m k).
Proof.
  intros Hm Hk w. unfold bind.
  destruct (Hm w) as (l1 & Hl1 & Hp1). destruct (m w) as [a w1]. cbn [snd] in Hl1.
  destruct (Hk a w1) as (l2 & Hl2 & Hp2).
  exists (l1 ++ l2). rewrite Hl2, Hl1, app_assoc, existsb_app, Hp1, Hp2. auto.
Qed.

Lemma avoids_invoke {A} (c : Call) (f : Ext -> A * Ext) :
  p c = false -> avoids p (invoke c f).
Proof.
  intros Hc w. exists [c]. unfold invoke, bind, record, external. cbn [ext calls].
  destruct (f (ext w)). cbn [snd calls existsb]. rewrite Hc. auto.
Qed.

Lemma avoids_Eventf (svc : Service) (t r m : string) :
  p (CallEventf svc t r m) = false -> avoids p (@Eventf Ext svc t r m).
Proof.
  intros Hc w. exists [CallEventf svc t r m]. unfold Eventf, record.
  cbn [snd calls existsb]. rewrite Hc. auto.
Qed.

Lemma avoids_attempts (n : nat) (condition : M Ext (bool * option GoError)) :
  avoids p condition -> avoids p (attempts n condition).
Proof.
  intros Hc. induction n as [| n IH]; simpl.
  - apply avoids_ret.
  - apply avoids_bind; [exact Hc |].
    intros [[|] [e |]]; auto using avoids_ret.
Qed.

Lemma avoids_retry (backoff : option WaitBackoff)
    (fun_ : Service -> M Ext (option GoError)) (svc : Service) :
  avoids p (fun_ svc) -> avoids p (retry backoff fun_ svc).
Proof.
  intros Hf. unfold retry, ExponentialBackoff.
  apply avoids_attempts, avoids_bind; [exact Hf |].
  intros [e |]; [destruct (Contains _ _) |]; apply avoids_ret.
Qed.

Hypothesis p_delete : forall cn svc, p (CallEnsureLoadBalancerDeleted cn svc) = false.
Hypothesis p_event : forall svc t r m, p (CallEventf svc t r m) = false.
Hypothesis p_patch : forall old new, p (CallPatchService old new) = false.

Lemma avoids_delete (con : Controller) (svc : Service) :
  avoids p (delete con svc).
Proof.
  unfold delete.
  apply avoids_bind; [apply avoids_invoke, p_delete |].
  intros [e |]; (apply avoids_bind; [apply avoids_Eventf, p_event | intros _]).
  - apply avoids_ret.
  - intros w. exists []. unfold bind, contextRemove, ret. cbn [snd calls].
    rewrite app_nil_r. auto.
Qed.

Lemma avoids_removeServiceHash (svc : Service) :
  avoids p (removeServiceHash svc).
Proof.
  unfold removeServiceHash.
  destruct (svcLabels svc !! LabelServiceHash); [| apply avoids_ret].
  apply avoids_bind; [apply avoids_invoke, p_patch |].
  intros [e |]; apply avoids_ret.
Qed.
End CallLog.

Section SecondRun.
Context `{OtherFiles} {Ext : Type} `{Collaborators Ext}.

Lemma persistStatus_first (newm : LoadBalancerStatus) (svc : Service)
    (w : World Ext) :
  exists tail,
    calls (snd (persistStatus newm svc w))
    = calls w ++ CallServicesGet (svcNamespace svc) (svcName svc) :: tail.
Proof.
  unfold persistStatus, invoke, bind, record, external, ret. cbn [ext calls local].
  destruct (client_ServicesGet _ _ _) as [[latest | e] x1]; cbn [ext calls local snd].
  - destruct (client_ServicesUpdateStatus _ _) as [[e |] x2];
      [destruct (IsNotFound _); [| destruct (IsConflict _)] |];
      cbn [snd calls]; rewrite <- app_assoc; eexists; reflexivity.
  - eexists. reflexivity.
Qed.

Lemma attempts_first (n : nat) (condition : M Ext (bool * option GoError))
    (c : Call) :
  (forall w, exists tail, calls (snd (condition w)) = calls w ++ c :: tail) ->
  appends condition ->
  forall w, exists tail,
    calls (snd (attempts (S n) condition w)) = calls w ++ c :: tail.
Proof.
  intros Hfirst Happ w. simpl. unfold bind at 1.
  destruct (Hfirst w) as [t1 Ht1].
  destruct (condition w) as [[ok [e |]] w1]; cbn [snd] in Ht1.
  - destruct ok; exists t1; exact Ht1.
  - destruct ok; [exists t1; exact Ht1 |].
    destruct (appends_attempts n condition Happ w1) as [l Hl].
    rewrite Hl, Ht1, <- app_assoc. eexists. reflexivity.
Qed.

Lemma retry_persistStatus_first (newm : LoadBalancerStatus) (svc : Service)
    (w : World Ext) :
  exists tail,
    calls (snd (retry (Some statusBackoff) (persistStatus newm) svc w))
    = calls w ++ CallServicesGet (svcNamespace svc) (svcName svc) :: tail.
Proof.
  unfold retry, ExponentialBackoff.
  change (Z.to_nat (wbSteps statusBackoff)) with 3%nat.
  apply attempts_first.
  - intros w0. unfold bind at 1.
    destruct (persistStatus_first newm svc w0) as [t1 Ht1].
    destruct (persistStatus newm svc w0) as [[e |] w1]; cbn [snd] in Ht1;
      [destruct (Contains _ _) |]; exists t1; exact Ht1.
  - apply appends_bind; [apply appends_persistStatus |].
    intros [e |]; [destruct (Contains _ _) |]; apply appends_ret.
Qed.

Lemma updateStatus_calls (svc : Service) (pre : LoadBalancerStatus)
    (newm : option LoadBalancerStatus) (w w' : World Ext) :
  updateStatus svc pre newm w = (None, w') ->
  exists st rest,
    newm = Some st /\
    calls w' = calls w ++ rest /\
    (LoadBalancerStatusEqual pre st = true -> rest = []) /\
    (LoadBalancerStatusEqual pre st = false ->
     exists tail, rest = CallServicesGet (svcNamespace svc) (svcName svc) :: tail).
Proof.
  unfold updateStatus. destruct newm as [st |]; [| discriminate].
  destruct (LoadBalancerStatusEqual pre st) eqn:Heq; cbn [negb].
  - unfold ret. intros [= <-]. exists st, []. rewrite app_nil_r.
    split; [reflexivity | split; [reflexivity | split; [auto | congruence]]].
  - intros Hretry.
    destruct (retry_persistStatus_first st svc w) as [tail Htail].
    rewrite Hretry in Htail. cbn [snd] in Htail.
    exists st, (CallServicesGet (svcNamespace svc) (svcName svc) :: tail).
    split; [reflexivity | split; [exact Htail | split; [congruence | eauto]]].
Qed.

Lemma update_ensure_calls (con : Controller) (cached : option Service)
    (svc : Service) (w w' : World Ext) :
  uidChanged cached svc = false ->
  NeedLoadBalancer svc = true ->
  update con cached svc w = (None, w') ->
  exists nodes newm rest,
    fst (cloud_EnsureLoadBalancer (clusterName con) svc nodes (ext w))
      = (Some newm, None) /\
    calls w' = calls w ++ ensureCalls con svc nodes ++ rest /\
    (LoadBalancerStatusEqual (svcStatus svc) newm = true -> rest = []) /\
    (LoadBalancerStatusEqual (svcStatus svc) newm = false ->
     exists tail, rest = CallServicesGet (svcNamespace svc) (svcName svc) :: tail).
Proof.
  intros Huid Hneed. unfold update. rewrite Huid, Hneed. cbn [negb].
  unfold bind at 1.
  destruct (AvailableNodes svc w) as [[nodes [e |]] w1] eqn:Havail; [discriminate |].
  assert (Hw1 : w1 = w).
  { revert Havail. unfold AvailableNodes, NodeConditionPredicate, bind, observe, ret.
    destruct (lister_NodesList (ext w)) as [ns [e |]]; congruence. }
  subst w1.
  unfold invoke, bind, Eventf, record, external, addServiceHash, PatchService,
    invoke, bind, record, external, ret.
  cbn [ext calls local].
  destruct (length nodes =? 0)%nat eqn:Hlen; cbn [ext calls local];
    (destruct (cloud_EnsureLoadBalancer _ _ _ _) as [[newm [e |]] e1] eqn:Hens;
       [discriminate |]);
    (destruct (GetServiceHash svc) as [hash [e |]] eqn:Hhash; [discriminate |]);
    cbn [ext calls local];
    (destruct (client_ServicesPatch _ _ _) as [[e |] e2]; [discriminate |]);
    intros Hfin; apply finishUpdate_success in Hfin as [_ (w6 & Hus & Hcalls)];
    apply updateStatus_calls in Hus as (st & rest & -> & Hrest & Heq & Hne);
    exists nodes, st, rest;
    (split; [rewrite Hens; reflexivity | split; [| split; [exact Heq | exact Hne]]]);
    rewrite Hcalls, Hrest; cbn [calls];
    unfold ensureCalls, noNodesWarning; rewrite Hlen, Hhash; cbn [fst];
    rewrite <- !app_assoc; reflexivity.
Qed.

Lemma update_no_lb_calls (con : Controller) (cached : option Service)
    (svc : Service) (w w' : World Ext) :
  uidChanged cached svc = false ->
  NeedLoadBalancer svc = false ->
  update con cached svc w = (None, w') ->
  exists rest,
    calls w' = calls w ++ CallGetLoadBalancer EmptyString svc :: rest /\
    (LoadBalancerStatusEqual (svcStatus svc) {| Ingress := [] |} = true ->
     existsb isStatusWrite rest = false).
Proof.
  intros Huid Hneed. unfold update. rewrite Huid, Hneed. cbn [negb].
  unfold bind at 1.
  destruct (invoke _ _ w) as [[exits [e |]] w1] eqn:Hget; [discriminate |].
  assert (Hc1 : calls w1 = calls w ++ [CallGetLoadBalancer EmptyString svc]).
  { revert Hget. unfold invoke, bind, record, external. cbn [ext calls local].
    destruct (cloud_GetLoadBalancer _ _ _). intros [= _ <-]. reflexivity. }
  unfold bind at 1.
  match goal with
  | |- context [(if exits then ?a else ?b) w1] =>
      assert (Hmid : avoids isStatusWrite (if exits then a else b));
      [| destruct (Hmid w1) as (l2 & Hl2 & Hp2);
         destruct ((if exits then a else b) w1) as [[e |] w2]; [discriminate |] ]
  end.
  { destruct exits.
    - apply avoids_retry, avoids_delete; reflexivity.
    - apply avoids_bind; [| intros _; apply avoids_ret].
      intros w0. exists []. unfold contextRemove. cbn [snd calls].
      rewrite app_nil_r. auto. }
  cbn [snd] in Hl2. unfold bind at 1.
  destruct (avoids_removeServiceHash isStatusWrite (fun _ _ => eq_refl) svc w2)
    as (l3 & Hl3 & Hp3).
  destruct (removeServiceHash svc w2) as [[e |] w3]; [discriminate |].
  cbn [snd] in Hl3.
  intros Hfin. apply finishUpdate_success in Hfin as [_ (w4 & Hus & Hcalls)].
  apply updateStatus_calls in Hus as (st & rest & [= <-] & Hrest & Heq & _).
  exists (l2 ++ l3 ++ rest). split.
  - rewrite Hcalls, Hrest, Hl3, Hl2, Hc1, <- !app_assoc. reflexivity.
  - intros Hsame. rewrite (Heq Hsame), !existsb_app, Hp2, Hp3. reflexivity.
Qed.

Lemma appends_finishUpdate (svc : Service) (pre : LoadBalancerStatus)
    (newm : option LoadBalancerStatus) :
  appends (finishUpdate svc pre newm).
Proof.
  unfold finishUpdate. apply appends_bind.
  - unfold updateStatus. destruct newm as [st |]; [| apply appends_ret].
    destruct (negb _); [| apply appends_ret].
    apply appends_retry, appends_persistStatus.
  - intros [e |]; [apply appends_ret |].
    intros w0. exists []. unfold bind, contextSet, ret. cbn [snd calls].
    rewrite app_nil_r. reflexivity.
Qed.

(** A run of [update] for a service that needs a load balancer, whatever
    its end: no call when the lister of nodes fails; otherwise the ensure
    operation, and after it the warning event alone when the operation
    failed, the patch of the hash label when it succeeded. *)
Lemma update_lister_fails (con : Controller) (cached : option Service)
    (svc : Service) (w : World Ext) (ns : list Node) (e : GoError) :
  uidChanged cached svc = false ->
  NeedLoadBalancer svc = true ->
  lister_NodesList (ext w) = (ns, Some e) ->
  update con cached svc w
  = (Some (Errorf ("error get available nodes " +:+ Error e)), w).
Proof.
  intros Huid Hneed Hlist. unfold update. rewrite Huid, Hneed. cbn [negb].
  unfold AvailableNodes, NodeConditionPredicate, bind, observe, ret.
  rewrite Hlist. reflexivity.
Qed.

Lemma update_always_ensures (con : Controller) (cached : option Service)
    (svc : Service) (w : World Ext) (ns : list Node) :
  uidChanged cached svc = false ->
  NeedLoadBalancer svc = true ->
  lister_NodesList (ext w) = (ns, None) ->
  exists tail,
    calls (snd (update con cached svc w))
    = calls w ++ noNodesWarning svc (List.filter (predicate svc) ns)
        ++ CallEnsureLoadBalancer (clusterName con) svc
             (List.filter (predicate svc) ns) :: tail /\
    (forall e,
        snd (fst (cloud_EnsureLoadBalancer (clusterName con) svc
                    (List.filter (predicate svc) ns) (ext w))) = Some e ->
        fst (update con cached svc w)
        = Some (Errorf ("ensure loadbalancer error: " +:+ Error e)) /\
        tail = [CallEventf svc EventTypeWarning "SyncLoadBalancerFailed"
                  ("Error syncing load balancer: " +:+ getLogMessage e)]) /\
    (forall hash,
        snd (fst (cloud_EnsureLoadBalancer (clusterName con) svc
                    (List.filter (predicate svc) ns) (ext w))) = None ->
        GetServiceHash svc = (hash, None) ->
        exists tail',
          tail = CallEventf svc EventTypeNormal "EnsuredLoadBalancer"
                   "Ensured load balancer"
                 :: CallPatchService svc
                      (withLabels svc
                         (<[LabelServiceHash := hash]> (svcLabels svc)))
                 :: tail').
Proof.
  intros Huid Hneed Hlist.
  remember (update con cached svc w) as r eqn:Hr.
  unfold update in Hr. rewrite Huid, Hneed in Hr. cbn [negb] in Hr.
  unfold AvailableNodes, NodeConditionPredicate in Hr.
  unfold bind at 1 in Hr. unfold bind at 1 in Hr. unfold observe, ret at 1 in Hr.
  rewrite Hlist in Hr. unfold ret at 1 in Hr.
  set (nodes := List.filter (predicate svc) ns) in *.
  assert (Hwarn : exists w0,
             (if (length nodes =? 0)%nat
              then Eventf svc EventTypeWarning "UnAvailableLoadBalancer"
                     "There are no available nodes for LoadBalancer"
              else ret tt) w = (tt, w0) /\
             ext w0 = ext w /\
             calls w0 = calls w ++ noNodesWarning svc nodes).
  { unfold noNodesWarning. destruct (length nodes =? 0)%nat.
    - eexists. unfold Eventf, record. split; [reflexivity | split; reflexivity].
    - exists w. unfold ret. rewrite app_nil_r. auto. }
  destruct Hwarn as (w0 & Hrun & Hext & Hcalls).
  unfold bind at 1 in Hr. rewrite Hrun in Hr.
  unfold bind at 1 in Hr. unfold invoke, bind at 1, record, external in Hr.
  cbn [ext calls local] in Hr. rewrite Hext in Hr.
  destruct (cloud_EnsureLoadBalancer (clusterName con) svc nodes (ext w))
    as [[newm [e |]] x]; cbn [fst snd] in *.
  - unfold bind, Eventf, record, ret in Hr. subst r. cbn [fst snd calls].
    eexists. split; [| split].
    + rewrite Hcalls, <- !app_assoc. cbn [app]. reflexivity.
    + intros e' [= <-]. split; reflexivity.
    + intros hash Hnone. discriminate.
  - unfold bind at 1 in Hr. unfold Eventf at 1, record at 1 in Hr.
    cbn [ext calls local] in Hr.
    unfold addServiceHash in Hr.
    destruct (GetServiceHash svc) as [hash [e |]] eqn:Hhash.
    + unfold bind, ret in Hr. subst r. cbn [fst snd calls].
      eexists. split; [| split].
      * rewrite Hcalls, <- !app_assoc. cbn [app]. reflexivity.
      * intros e' Habs. discriminate.
      * intros hash' _ Habs. discriminate.
    + unfold bind at 1 in Hr. unfold bind at 1 in Hr.
      unfold PatchService, invoke, bind at 1, record, external in Hr.
      cbn [ext calls local] in Hr.
      destruct (client_ServicesPatch _ _ x) as [[e |] x1].
      * unfold ret in Hr. subst r. cbn [fst snd calls].
        eexists. split; [| split].
        -- rewrite Hcalls, <- !app_assoc. cbn [app]. reflexivity.
        -- intros e' Habs. discriminate.
        -- intros hash' _ [= <-]. eexists. reflexivity.
      * cbn [fst snd] in Hr. unfold ret at 1 in Hr.
        match type of Hr with
        | context [finishUpdate svc ?pre newm ?w5] =>
            destruct (appends_finishUpdate svc pre newm w5) as [l Hl];
            destruct (finishUpdate svc pre newm w5) as [r' w6]
        end.
        subst r. cbn [fst snd calls] in *.
        exists ([CallEventf svc EventTypeNormal "EnsuredLoadBalancer"
                   "Ensured load balancer";
                 CallPatchService svc
                   (withLabels svc (<[LabelServiceHash := hash]> (svcLabels svc)))]
                ++ l).
        split; [| split].
        -- rewrite Hl, Hcalls, <- !app_assoc. cbn [app]. reflexivity.
        -- intros e' Habs. discriminate.
        -- intros hash' _ [= <-]. exists l. reflexivity.
Qed.

(** A run of [update] for a service that needs no load balancer, whatever
    its end: it starts by asking the cloud backend for the load balancer,
    and it writes no status when the recorded status is empty. *)
Lemma update_no_lb_avoids (p : Call -> bool) (con : Controller)
    (cached : option Service) (svc : Service) :
  (forall cn s, p (CallEnsureLoadBalancerDeleted cn s) = false) ->
  (forall s t r m, p (CallEventf s t r m) = false) ->
  (forall old new, p (CallPatchService old new) = false) ->
  uidChanged cached svc = false ->
  NeedLoadBalancer svc = false ->
  avoids p (finishUpdate svc (svcStatus svc) (Some {| Ingress := [] |})) ->
  forall w, exists rest,
    calls (snd (update con cached svc w))
    = calls w ++ CallGetLoadBalancer EmptyString svc :: rest /\
    existsb p rest = false.
Proof.
  intros Hdel Hev Hpatch Huid Hneed Hfin w.
  unfold update. rewrite Huid, Hneed. cbn [negb].
  unfold bind at 1.
  destruct (invoke _ _ w) as [got w1] eqn:Hget.
  assert (Hc1 : calls w1 = calls w ++ [CallGetLoadBalancer EmptyString svc]).
  { revert Hget. unfold invoke, bind, record, external. cbn [ext calls local].
    destruct (cloud_GetLoadBalancer _ _ _). intros [= _ <-]. reflexivity. }
  match goal with
  | |- context [snd (?k w1)] =>
      assert (Hk : avoids p k); [| destruct (Hk w1) as (l & Hl & Hp)]
  end.
  { destruct got as [exits [e |]]; [apply avoids_ret |].
    apply avoids_bind.
    - destruct exits.
      + apply avoids_retry, avoids_delete; assumption.
      + apply avoids_bind; [| intros _; apply avoids_ret].
        intros w0. exists []. unfold contextRemove. cbn [snd calls].
        rewrite app_nil_r. auto.
    - intros [e |]; [apply avoids_ret |].
      apply avoids_bind; [apply avoids_removeServiceHash; assumption |].
      intros [e |]; [apply avoids_ret | exact Hfin]. }
  exists l. split; [| exact Hp].
  rewrite Hl, Hc1, <- app_assoc. reflexivity.
Qed.

Lemma update_no_lb_always (con : Controller) (cached : option Service)
    (svc : Service) (w : World Ext) :
  uidChanged cached svc = false ->
  NeedLoadBalancer svc = false ->
  exists rest,
    calls (snd (update con cached svc w))
    = calls w ++ CallGetLoadBalancer EmptyString svc :: rest /\
    (LoadBalancerStatusEqual (svcStatus svc) {| Ingress := [] |} = true ->
     existsb isStatusWrite rest = false).
Proof.
  intros Huid Hneed.
  assert (Hany : avoids (fun _ => false)
                   (finishUpdate svc (svcStatus svc) (Some {| Ingress := [] |}))).
  { intros w0. destruct (appends_finishUpdate svc (svcStatus svc)
                           (Some {| Ingress := [] |}) w0) as [l Hl].
    exists l. split; [exact Hl |]. clear Hl. induction l; simpl; auto. }
  destruct (update_no_lb_avoids (fun _ => false) con cached svc
              (fun _ _ => eq_refl) (fun _ _ _ _ => eq_refl) (fun _ _ => eq_refl)
              Huid Hneed Hany w) as (rest & Hrest & _).
  exists rest. split; [exact Hrest |]. intros Hsame.
  assert (Hquiet : avoids isStatusWrite
                     (finishUpdate svc (svcStatus svc) (Some {| Ingress := [] |}))).
  { intros w0. exists []. unfold finishUpdate, updateStatus, bind, ret, contextSet.
    rewrite Hsame. cbn [negb snd calls]. rewrite app_nil_r. auto. }
  destruct (update_no_lb_avoids isStatusWrite con cached svc
              (fun _ _ => eq_refl) (fun _ _ _ _ => eq_refl) (fun _ _ => eq_refl)
              Huid Hneed Hquiet w) as (rest' & Hrest' & Hp).
  rewrite Hrest in Hrest'. apply app_inv_head in Hrest'.
  injection Hrest' as ->. exact Hp.
Qed.

(** C4, amended. A second run of [update] on the same unchanged object
    after a first successful run still calls out.  For a service that needs
    a load balancer: when the lister of nodes fails, the run fails without a
    call; when it answers, the run calls the ensure operation of the cloud
    backend, whatever its end; when the ensure operation fails, the run
    fails after a warning event, without a patch and without a status write;
    when the ensure operation succeeds and the hash can be computed, the run
    patches the hash label again.  A second run that returns nil has issued
    no further call after the patch when the status the backend returns
    equals the status recorded on the object, and otherwise has gone on to
    the status write, reading the service first.  For a service that needs
    no load balancer the run starts by asking the cloud backend whether a
    load balancer exists, and it writes no status when the recorded status is
    empty. *)
Theorem update_twice (con : Controller) (cached : option Service)
    (svc : Service) (w w1 : World Ext) :
  update con cached svc w = (None, w1) ->
  (NeedLoadBalancer svc = true ->
   (forall ns e,
       lister_NodesList (ext w1) = (ns, Some e) ->
       update con (local w1 !! key svc) svc w1
       = (Some (Errorf ("error get available nodes " +:+ Error e)), w1)) /\
   (forall ns,
       lister_NodesList (ext w1) = (ns, None) ->
       exists tail,
         calls (snd (update con (local w1 !! key svc) svc w1))
         = calls w1 ++ noNodesWarning svc (List.filter (predicate svc) ns)
             ++ CallEnsureLoadBalancer (clusterName con) svc
                  (List.filter (predicate svc) ns) :: tail /\
         (forall e,
             snd (fst (cloud_EnsureLoadBalancer (clusterName con) svc
                         (List.filter (predicate svc) ns) (ext w1))) = Some e ->
             fst (update con (local w1 !! key svc) svc w1)
             = Some (Errorf ("ensure loadbalancer error: " +:+ Error e)) /\
             tail = [CallEventf svc EventTypeWarning "SyncLoadBalancerFailed"
                       ("Error syncing load balancer: " +:+ getLogMessage e)]) /\
         (forall hash,
             snd (fst (cloud_EnsureLoadBalancer (clusterName con) svc
                         (List.filter (predicate svc) ns) (ext w1))) = None ->
             GetServiceHash svc = (hash, None) ->
             exists tail',
               tail = CallEventf svc EventTypeNormal "EnsuredLoadBalancer"
                        "Ensured load balancer"
                      :: CallPatchService svc
                           (withLabels svc
                              (<[LabelServiceHash := hash]> (svcLabels svc)))
                      :: tail')) /\
   (forall w2,
       update con (local w1 !! key svc) svc w1 = (None, w2) ->
       exists nodes newm rest,
         fst (cloud_EnsureLoadBalancer (clusterName con) svc nodes (ext w1))
           = (Some newm, None) /\
         calls w2 = calls w1 ++ ensureCalls con svc nodes ++ rest /\
         (LoadBalancerStatusEqual (svcStatus svc) newm = true -> rest = []) /\
         (LoadBalancerStatusEqual (svcStatus svc) newm = false ->
          exists tail,
            rest = CallServicesGet (svcNamespace svc) (svcName svc) :: tail))) /\
  (NeedLoadBalancer svc = false ->
   exists rest,
     calls (snd (update con (local w1 !! key svc) svc w1))
     = calls w1 ++ CallGetLoadBalancer EmptyString svc :: rest /\
     (LoadBalancerStatusEqual (svcStatus svc) {| Ingress := [] |} = true ->
      existsb isStatusWrite rest = false)).
Proof.
  intros Hfirst.
  assert (Huid : uidChanged (local w1 !! key svc) svc = false).
  { destruct (uidChanged cached svc) eqn:Hc.
    - unfold update in Hfirst. rewrite Hc in Hfirst.
      apply retry_delete_success in Hfirst. rewrite Hfirst. reflexivity.
    - rewrite (update_success_cached con cached svc w w1 Hc Hfirst).
      unfold uidChanged. rewrite String.eqb_refl. reflexivity. }
  split; intros Hneed.
  - split; [| split].
    + intros ns e Hlist. exact (update_lister_fails con _ svc w1 ns e Huid Hneed Hlist).
    + intros ns Hlist. exact (update_always_ensures con _ svc w1 ns Huid Hneed Hlist).
    + intros w2 Hsecond.
      exact (update_ensure_calls con _ svc w1 w2 Huid Hneed Hsecond).
  - exact (update_no_lb_always con _ svc w1 Huid Hneed).
Qed.

End SecondRun.

Section UidChange.
Context `{OtherFiles} {Ext : Type} `{Collaborators Ext}.

(** On a UID change [update] is the retried [delete] and nothing more: it
    never calls the ensure operation of the cloud backend. *)
Lemma update_uid_change_never_ensures (con : Controller)
    (cached : option Service) (svc : Service) (w : World Ext) :
  uidChanged cached svc = true ->
  update con cached svc w = retry None (delete con) svc w /\
  exists l, calls (snd (update con cached svc w)) = calls w ++ l /\
            existsb isEnsure l = false.
Proof.
  intros Huid. unfold update. rewrite Huid. split; [reflexivity |].
  apply avoids_retry, avoids_delete; reflexivity.
Qed.

(** With the collaborators left open: whatever the service, a conflict
    whose text lacks the sentinel is dropped by [updateStatus]. *)
Lemma updateStatus_conflict_dropped (svc latest : Service)
    (pre newm : LoadBalancerStatus) (w : World Ext) (e : GoError) (x1 x2 : Ext) :
  LoadBalancerStatusEqual pre newm = false ->
  client_ServicesGet (svcNamespace svc) (svcName svc) (ext w) = (inl latest, x1) ->
  client_ServicesUpdateStatus (withStatus latest newm) x1 = (Some e, x2) ->
  IsConflict (Some e) = true ->
  Contains ("not persisting update to service " +:+ key svc
            +:+ " that has been changed since we received it: " +:+ Error e)
    TRY_AGAIN = false ->
  fst (updateStatus svc pre (Some newm) w) = None.
Proof.
  intros Hne Hget Hput Hconf Hplain.
  unfold updateStatus. rewrite Hne. cbn [negb].
  assert (Hnf : IsNotFound (Some e) = false).
  { destruct e as [msg []]; simpl in *; congruence. }
  assert (Hp : exists w', persistStatus newm svc w
               = (Some (Errorf ("not persisting update to service " +:+ key svc
                    +:+ " that has been changed since we received it: "
                    +:+ Error e)), w')).
  { unfold persistStatus, invoke, bind, record, external, ret.
    cbn [ext calls local]. rewrite Hget. cbn [ext calls local]. rewrite Hput.
    rewrite Hnf, Hconf. eauto. }
  destruct Hp as [w' Hp].
  rewrite (retry_swallows (Some statusBackoff) (persistStatus newm) svc w w' _
             eq_refl Hp Hplain).
  reflexivity.
Qed.
End UidChange.

(** The claim C2 fails: an error of [fun] without the sentinel ends [retry]
    with nil, and a conflict while writing the status ends [updateStatus]
    with nil, after one read and one write. *)
Theorem retry_drops_plain_error :
  Contains (Error (Errorf "error to get svc default/web")) TRY_AGAIN = false /\
  @retry Script None
    (fun _ => ret (Some (Errorf "error to get svc default/web")))
    lbService (startWorld quietScript ∅)
  = (None, startWorld quietScript ∅) /\
  IsConflict (onServicesUpdateStatus conflictScript) = true /\
  fst (@updateStatus Script scripted lbService {| Ingress := [] |}
         (Some assignedStatus) (startWorld conflictScript ∅)) = None /\
  calls (snd (@updateStatus Script scripted lbService {| Ingress := [] |}
                (Some assignedStatus) (startWorld conflictScript ∅)))
  = [CallServicesGet "default" "web";
     CallServicesUpdateStatus (withStatus lbService assignedStatus)].
Proof. repeat split; vm_compute; reflexivity. Qed.

(** The claim C3 fails: after a successful [update] of a service that needs
    no load balancer, the cache holds the service under its key, whether the
    cloud backend reported a load balancer or none. *)
Theorem update_no_lb_keeps_cache_entry :
  @NeedLoadBalancer exampleFiles plainService = false /\
  fst (@update exampleFiles Script scripted exampleController None plainService
         (startWorld quietScript ∅)) = None /\
  local (snd (@update exampleFiles Script scripted exampleController None
                plainService (startWorld quietScript ∅)))
    !! key plainService = Some plainService /\
  fst (@update exampleFiles Script scripted exampleController None plainService
         (startWorld leftoverScript ∅)) = None /\
  local (snd (@update exampleFiles Script scripted exampleController None
                plainService (startWorld leftoverScript ∅)))
    !! key plainService = Some plainService.
Proof. repeat split; vm_compute; reflexivity. Qed.

(** The claim C8 fails in its last part: on a UID change [update] deletes
    the load balancer of the live object and returns; no ensure follows. *)
Theorem update_uid_change_stops_after_delete :
  uidChanged (Some (exampleService "A" "LoadBalancer" "Cluster" {| Ingress := [] |}))
    lbService = true /\
  fst (@update exampleFiles Script scripted exampleController
         (Some (exampleService "A" "LoadBalancer" "Cluster" {| Ingress := [] |}))
         lbService (startWorld quietScript staleCache)) = None /\
  calls (snd (@update exampleFiles Script scripted exampleController
                (Some (exampleService "A" "LoadBalancer" "Cluster" {| Ingress := [] |}))
                lbService (startWorld quietScript staleCache)))
  = [CallEnsureLoadBalancerDeleted "kubernetes" lbService;
     CallEventf lbService EventTypeNormal "DeletedLoadBalancer"
       "LoadBalancer Deleted SUCCESS. default/web"] /\
  local (snd (@update exampleFiles Script scripted exampleController
                (Some (exampleService "A" "LoadBalancer" "Cluster" {| Ingress := [] |}))
                lbService (startWorld quietScript staleCache)))
    !! key lbService = None.
Proof. repeat split; vm_compute; reflexivity. Qed.

(** The claim C4 fails: the second of two successful runs on the same
    object, whose status already is what the backend assigns, calls the
    ensure operation of the backend and patches the service again. *)
Lemma second_run_still_writes :
  fst firstRun = None /\
  fst secondRun = None /\
  List.filter isWrite (callsSince (snd firstRun) (snd secondRun))
  = [ CallEnsureLoadBalancer "kubernetes" settledService [readyNode "worker-1" ∅];
      CallPatchService settledService
        (withLabels settledService
           (<[ "service.beta.kubernetes.io/hash" := "B-hash" ]> ∅)) ].
Proof. repeat split; vm_compute; reflexivity. Qed.

Lemma update_twice_witness :
  (exists tail,
      calls (snd secondRun)
      = calls (snd firstRun)
        ++ noNodesWarning settledService
             (List.filter (@predicate exampleFiles settledService)
                [readyNode "worker-1" ∅])
        ++ CallEnsureLoadBalancer "kubernetes" settledService
             (List.filter (@predicate exampleFiles settledService)
                [readyNode "worker-1" ∅])
           :: CallEventf settledService EventTypeNormal "EnsuredLoadBalancer"
                "Ensured load balancer"
           :: CallPatchService settledService
                (withLabels settledService
                   (<[ "service.beta.kubernetes.io/hash" := "B-hash" ]> ∅))
           :: tail) /\
  (exists nodes newm rest,
      fst (@cloud_EnsureLoadBalancer Script scripted "kubernetes" settledService
             nodes (ext (snd firstRun))) = (Some newm, None) /\
      calls (snd secondRun)
      = calls (snd firstRun)
        ++ @ensureCalls exampleFiles exampleController settledService nodes ++ rest /\
      (LoadBalancerStatusEqual (svcStatus settledService) newm = true -> rest = []) /\
      (LoadBalancerStatusEqual (svcStatus settledService) newm = false ->
       exists tail, rest = CallServicesGet "default" "web" :: tail)) /\
  wornAgain true
  = (Some (Errorf "error get available nodes node informer is not synced"),
     snd (wornRun true)) /\
  (fst (wornAgain false)
   = Some (Errorf "ensure loadbalancer error: Throttling.User") /\
   List.filter isWrite (callsSince (snd (wornRun false)) (snd (wornAgain false)))
   = [CallEnsureLoadBalancer "kubernetes" settledService [readyNode "worker-1" ∅]]).
Proof.
  destruct (proj1 (@update_twice exampleFiles Script scripted exampleController
                     None settledService (startWorld quietScript ∅)
                     (snd firstRun) eq_refl) eq_refl)
    as (_ & Hensures & Hquiet).
  destruct (proj1 (@update_twice exampleFiles nat (wearing true) exampleController
                     None settledService {| ext := 0%nat; local := ∅; calls := [] |}
                     (snd (wornRun true)) eq_refl) eq_refl)
    as (Hlister & _ & _).
  destruct (proj1 (@update_twice exampleFiles nat (wearing false) exampleController
                     None settledService {| ext := 0%nat; local := ∅; calls := [] |}
                     (snd (wornRun false)) eq_refl) eq_refl)
    as (_ & Hfails & _).
  split; [| split; [| split]].
  - destruct (Hensures [readyNode "worker-1" ∅] eq_refl)
      as (tail & Hcalls & _ & Hpatch).
    destruct (Hpatch "B-hash" eq_refl eq_refl) as (tail' & ->).
    exists tail'. exact Hcalls.
  - exact (Hquiet (snd secondRun) eq_refl).
  - exact (Hlister [] (Errorf "node informer is not synced") eq_refl).
  - destruct (Hfails [readyNode "worker-1" ∅] eq_refl)
      as (tail & Hcalls & Hfail & _).
    destruct (Hfail (Errorf "Throttling.User") eq_refl) as [Hres ->].
    split; [exact Hres |].
    unfold callsSince. unfold wornAgain. rewrite Hcalls.
    rewrite drop_app_length. vm_compute. reflexivity.
Defined.

(** A conflict whose text ends in the sentinel, as the text of the API
    server does, is taken for a retryable failure: the read and the write
    are repeated until the three steps are used up. *)
Lemma updateStatus_conflict_with_sentinel_retried :
  fst (@updateStatus Script scripted lbService {| Ingress := [] |}
         (Some assignedStatus) (startWorld apiConflictScript ∅))
  = Some ErrWaitTimeout /\
  map isStatusWrite
    (calls (snd (@updateStatus Script scripted lbService {| Ingress := [] |}
                   (Some assignedStatus) (startWorld apiConflictScript ∅))))
  = [false; true; false; true; false; true].
Proof. split; vm_compute; reflexivity. Qed.

(** * Further properties *)

(** ** Keys *)

Lemma Split_nonempty (s : string) (sep : ascii) : Split s sep <> [].
Proof.
  destruct s as [| c s]; simpl; [discriminate |].
  destruct (Ascii.eqb c sep); [discriminate |].
  destruct (Split s sep); discriminate.
Qed.

Lemma Split_without_slash (s : string) :
  hasSlash s = false -> Split s "/" = [s].
Proof.
  induction s as [| c s IH]; simpl; [reflexivity |].
  intros Hs. apply orb_false_elim in Hs as [Hc Hs].
  rewrite Hc, (IH Hs). reflexivity.
Qed.

Lemma Split_at_slash (a b : string) :
  hasSlash a = false -> Split (a +:+ String "/" b) "/" = a :: Split b "/".
Proof.
  induction a as [| c a IH]; simpl.
  - reflexivity.
  - intros Hs. apply orb_false_elim in Hs as [Hc Hs].
    rewrite Hc, (IH Hs). reflexivity.
Qed.

Lemma Split_length (s : string) :
  length (Split s "/") = S (countSlash s).
Proof.
  induction s as [| c s IH]; simpl; [reflexivity |].
  destruct (Ascii.eqb c "/"); simpl.
  - now rewrite IH.
  - destruct (Split s "/") as [| p ps] eqn:E; simpl in *; congruence.
Qed.

Lemma SplitMetaNamespaceKey_many_slashes (k : string) :
  (2 <= countSlash k)%nat -> exists e, SplitMetaNamespaceKey k = inr e.
Proof.
  intros Hk. unfold SplitMetaNamespaceKey.
  pose proof (Split_length k) as Hlen.
  destruct (Split k "/") as [| a [| b [| c l]]]; simpl in Hlen; try lia; eauto.
Qed.

Lemma Split_key (svc : Service) :
  hasSlash (svcNamespace svc) = false ->
  hasSlash (svcName svc) = false ->
  SplitMetaNamespaceKey (key svc) = inl (svcNamespace svc, svcName svc).
Proof.
  intros Hns Hname. unfold SplitMetaNamespaceKey, key.
  change ("/" +:+ svcName svc) with (String "/" (svcName svc)).
  rewrite (Split_at_slash _ _ Hns), (Split_without_slash _ Hname).
  reflexivity.
Qed.

(** X1. The key of a service whose namespace and name hold no slash splits
    back into that namespace and that name, and a key with two slashes or
    more does not split at all. *)
Theorem SplitMetaNamespaceKey_key (svc : Service) (k : string) :
  (hasSlash (svcNamespace svc) = false ->
   hasSlash (svcName svc) = false ->
   SplitMetaNamespaceKey (key svc) = inl (svcNamespace svc, svcName svc)) /\
  ((2 <= countSlash k)%nat -> exists e, SplitMetaNamespaceKey k = inr e).
Proof.
  split; [apply Split_key | apply SplitMetaNamespaceKey_many_slashes].
Qed.

Lemma SplitMetaNamespaceKey_key_witness :
  SplitMetaNamespaceKey (key lbService) = inl ("default", "web") /\
  exists e, SplitMetaNamespaceKey "a/b/c" = inr e.
Proof.
  split.
  - apply (proj1 (SplitMetaNamespaceKey_key lbService "a/b/c")); reflexivity.
  - apply (proj2 (SplitMetaNamespaceKey_key lbService "a/b/c")). vm_compute. lia.
Defined.

Section SyncTaskProperties.
Context `{OtherFiles} {Ext : Type} `{Collaborators Ext}.

(** X2. [ServiceSyncTask] fails, without a call and without a change of
    the cache, when the key holds two slashes or more, when the lister fails
    with another error than not-found, and when the lister returns neither a
    service nor an error. *)
Theorem ServiceSyncTask_rejects (con : Controller) (k : string) (w : World Ext) :
  ((2 <= countSlash k)%nat ->
   ServiceSyncTask con k w
   = (Some (Errorf ("unexpected key format " +:+ k +:+ " for syncing service")), w)) /\
  (forall ns name service e,
      SplitMetaNamespaceKey k = inl (ns, name) ->
      lister_ServicesGet ns name (ext w) = (service, Some e) ->
      IsNotFound (Some e) = false ->
      ServiceSyncTask con k w
      = (Some (Errorf ("failed to load service from local context: " +:+ Error e)), w)) /\
  (forall ns name,
      SplitMetaNamespaceKey k = inl (ns, name) ->
      lister_ServicesGet ns name (ext w) = (None, None) ->
      ServiceSyncTask con k w
      = (Some (Errorf ("retry unexpected nil service " +:+ k +:+ ". ")), w)).
Proof.
  unfold ServiceSyncTask. repeat split.
  - intros Hk. destruct (SplitMetaNamespaceKey_many_slashes k Hk) as [e ->].
    reflexivity.
  - intros ns name service e -> Hget Hnf.
    unfold bind, contextGet, observe, ret. rewrite Hget, Hnf. reflexivity.
  - intros ns name -> Hget.
    unfold bind, contextGet, observe, ret. rewrite Hget. reflexivity.
Qed.

Lemma deletion_run_is_retry_delete (con : Controller) (k ns name : string)
    (cached : Service) (w : World Ext) :
  SplitMetaNamespaceKey k = inl (ns, name) ->
  IsNotFound (snd (lister_ServicesGet ns name (ext w))) = true ->
  local w !! k = Some cached ->
  ServiceSyncTask con k w = retry None (delete con) cached w.
Proof.
  intros Hkey Hnf Hcache.
  unfold ServiceSyncTask. rewrite Hkey.
  unfold bind at 1, contextGet at 1. rewrite Hcache.
  unfold bind at 1, observe at 1.
  destruct (lister_ServicesGet ns name (ext w)) as [service err].
  cbn [snd] in Hnf. rewrite Hnf. reflexivity.
Qed.

Lemma delete_first (con : Controller) (svc : Service) (w : World Ext) :
  exists tail,
    calls (snd (delete con svc w))
    = calls w ++ CallEnsureLoadBalancerDeleted (clusterName con) svc :: tail.
Proof.
  unfold delete, invoke, Eventf, bind, ret, record, external, contextRemove.
  cbn [ext calls local].
  destruct (cloud_EnsureLoadBalancerDeleted _ _ _) as [[e |] x];
    cbn [snd calls ext local]; rewrite <- app_assoc; eexists; reflexivity.
Qed.

Lemma retry_delete_first (con : Controller) (svc : Service) (w : World Ext) :
  exists tail,
    calls (snd (retry None (delete con) svc w))
    = calls w ++ CallEnsureLoadBalancerDeleted (clusterName con) svc :: tail.
Proof.
  unfold retry, ExponentialBackoff.
  change (Z.to_nat (wbSteps defaultBackoff)) with 8%nat.
  apply attempts_first.
  - intros w0. unfold bind at 1.
    destruct (delete_first con svc w0) as [t Ht].
    destruct (delete con svc w0) as [[e |] w1]; cbn [snd] in Ht;
      [destruct (Contains _ _) |]; exists t; exact Ht.
  - apply appends_bind.
    + intros w0. destruct (delete_first con svc w0) as [t Ht]. eauto.
    + intros [e |]; [destruct (Contains _ _) |]; apply appends_ret.
Qed.

(** X3. When the lister reports the service as not found and the cache
    holds an object for the key, [ServiceSyncTask] is the retried [delete] of
    the cached object: it starts by calling the delete operation of the cloud
    backend for that object, it never calls the ensure operation nor writes a
    status, and when it returns nil the cache no longer holds the key of the
    object. *)
Theorem ServiceSyncTask_deletion (con : Controller) (k ns name : string)
    (cached : Service) (w : World Ext) :
  SplitMetaNamespaceKey k = inl (ns, name) ->
  IsNotFound (snd (lister_ServicesGet ns name (ext w))) = true ->
  local w !! k = Some cached ->
  ServiceSyncTask con k w = retry None (delete con) cached w /\
  (exists tail,
      calls (snd (ServiceSyncTask con k w))
      = calls w ++ CallEnsureLoadBalancerDeleted (clusterName con) cached :: tail /\
      existsb isEnsure tail = false /\
      existsb isStatusWrite tail = false) /\
  (fst (ServiceSyncTask con k w) = None ->
   local (snd (ServiceSyncTask con k w)) !! key cached = None).
Proof.
  intros Hkey Hnf Hcache.
  rewrite (deletion_run_is_retry_delete con k ns name cached w Hkey Hnf Hcache).
  split; [reflexivity | split].
  - pose (p := fun c => isEnsure c || isStatusWrite c).
    assert (Hav : avoids p (retry None (delete con) cached)).
    { apply avoids_retry, avoids_delete; reflexivity. }
    destruct (Hav w) as (l & Hl & Hp).
    destruct (retry_delete_first con cached w) as [tail Htail].
    exists tail. split; [exact Htail |].
    rewrite Htail in Hl. apply app_inv_head in Hl. subst l.
    cbn [existsb] in Hp. apply orb_false_elim in Hp as [_ Hp].
    clear -Hp. induction tail as [| c t IH]; [auto |].
    cbn [existsb] in *. apply orb_false_elim in Hp as [Hc Ht].
    apply orb_false_elim in Hc as [-> ->]. cbn. auto.
  - intros Hnil.
    destruct (retry None (delete con) cached w) as [r w'] eqn:Hr.
    cbn [fst snd] in *. subst r.
    exact (retry_delete_success con cached w w' Hr).
Qed.
End SyncTaskProperties.

(** ** How computations compose *)

Section Shapes.
Context `{OtherFiles} {Ext : Type} `{Collaborators Ext}.

Section Only.
Variable P : Call -> Prop.

Lemma emitsOnly_ret {A} (a : A) : emitsOnly P (@ret Ext A a).
Proof. intros w. exists []. simpl. rewrite app_nil_r. auto. Qed.

Lemma emitsOnly_bind {A B} (m : M Ext A) (k : A -> M Ext B) :
  emitsOnly P m -> (forall a, emitsOnly P (k a)) -> emitsOnly P (bind m k).
Proof.
  intros Hm Hk w. unfold bind.
  destruct (Hm w) as (l1 & Hl1 & Hp1). destruct (m w) as [a w1]. cbn [snd] in Hl1.
  destruct (Hk a w1) as (l2 & Hl2 & Hp2).
  exists (l1 ++ l2). rewrite Hl2, Hl1, app_assoc. split; [reflexivity |].
  apply Forall_app; auto.
Qed.

Lemma emitsOnly_invoke {A} (c : Call) (f : Ext -> A * Ext) :
  P c -> emitsOnly P (invoke c f).
Proof.
  intros Hc w. exists [c]. unfold invoke, bind, record, external. cbn [ext calls].
  destruct (f (ext w)). cbn [snd calls]. auto.
Qed.

Lemma emitsOnly_Eventf (svc : Service) (t r m : string) :
  P (CallEventf svc t r m) -> emitsOnly P (@Eventf Ext svc t r m).
Proof.
  intros Hc w. exists [CallEventf svc t r m]. unfold Eventf, record.
  cbn [snd calls]. auto.
Qed.

Lemma emitsOnly_silent {A} (m : M Ext A) :
  (forall w, calls (snd (m w)) = calls w) -> emitsOnly P m.
Proof. intros Hm w. exists []. rewrite app_nil_r. auto. Qed.

Lemma emitsOnly_attempts (n : nat) (condition : M Ext (bool * option GoError)) :
  emitsOnly P condition -> emitsOnly P (attempts n condition).
Proof.
  intros Hc. induction n as [| n IH]; simpl.
  - apply emitsOnly_ret.
  - apply emitsOnly_bind; [exact Hc |].
    intros [[|] [e |]]; auto using emitsOnly_ret.
Qed.

Lemma emitsOnly_retry (backoff : option WaitBackoff)
    (fun_ : Service -> M Ext (option GoError)) (svc : Service) :
  emitsOnly P (fun_ svc) -> emitsOnly P (retry backoff fun_ svc).
Proof.
  intros Hf. unfold retry, ExponentialBackoff.
  apply emitsOnly_attempts, emitsOnly_bind; [exact Hf |].
  intros [e |]; [destruct (Contains _ _) |]; apply emitsOnly_ret.
Qed.
End Only.

Lemma emitsAtMost_ret {A} (a : A) (n : nat) : emitsAtMost n (@ret Ext A a).
Proof. intros w. exists []. simpl. rewrite app_nil_r. split; [auto | lia]. Qed.

Lemma emitsAtMost_bind {A B} (m : M Ext A) (k : A -> M Ext B) (n1 n2 : nat) :
  emitsAtMost n1 m -> (forall a, emitsAtMost n2 (k a)) ->
  emitsAtMost (n1 + n2) (bind m k).
Proof.
  intros Hm Hk w. unfold bind.
  destruct (Hm w) as (l1 & Hl1 & Hp1). destruct (m w) as [a w1]. cbn [snd] in Hl1.
  destruct (Hk a w1) as (l2 & Hl2 & Hp2).
  exists (l1 ++ l2). rewrite Hl2, Hl1, app_assoc, length_app.
  split; [reflexivity | lia].
Qed.

Lemma emitsAtMost_weaken {A} (m : M Ext A) (n n' : nat) :
  (n <= n')%nat -> emitsAtMost n m -> emitsAtMost n' m.
Proof.
  intros Hn Hm w. destruct (Hm w) as (l & Hl & Hlen).
  exists l. split; [exact Hl | lia].
Qed.

Lemma emitsAtMost_invoke {A} (c : Call) (f : Ext -> A * Ext) :
  emitsAtMost 1 (invoke c f).
Proof.
  intros w. exists [c]. unfold invoke, bind, record, external. cbn [ext calls].
  destruct (f (ext w)). cbn [snd calls]. auto.
Qed.

Lemma emitsAtMost_attempts (n k : nat) (condition : M Ext (bool * option GoError)) :
  emitsAtMost k condition -> emitsAtMost (n * k) (attempts n condition).
Proof.
  intros Hc. induction n as [| n IH]; simpl.
  - apply emitsAtMost_ret.
  - apply emitsAtMost_bind; [exact Hc |].
    intros [[|] [e |]]; try (apply emitsAtMost_ret); exact IH.
Qed.

Section Cache.
Variable R : gmap string Service -> gmap string Service -> Prop.
Hypothesis R_refl : forall c, R c c.
Hypothesis R_trans : forall c1 c2 c3, R c1 c2 -> R c2 c3 -> R c1 c3.

Lemma cacheStep_ret {A} (a : A) : cacheStep R (@ret Ext A a).
Proof. intros w. apply R_refl. Qed.

Lemma cacheStep_bind {A B} (m : M Ext A) (k : A -> M Ext B) :
  cacheStep R m -> (forall a, cacheStep R (k a)) -> cacheStep R (bind m k).
Proof.
  intros Hm Hk w. unfold bind. specialize (Hm w).
  destruct (m w) as [a w1]. cbn [snd] in Hm.
  eapply R_trans; [exact Hm | apply Hk].
Qed.

Lemma cacheStep_same {A} (m : M Ext A) :
  (forall w, local (snd (m w)) = local w) -> cacheStep R m.
Proof. intros Hm w. rewrite Hm. apply R_refl. Qed.

Lemma cacheStep_invoke {A} (c : Call) (f : Ext -> A * Ext) :
  cacheStep R (invoke c f).
Proof.
  apply cacheStep_same. intros w. unfold invoke, bind, record, external.
  cbn [ext calls local]. now destruct (f (ext w)).
Qed.

Lemma cacheStep_Eventf (svc : Service) (t r m : string) :
  cacheStep R (@Eventf Ext svc t r m).
Proof. apply cacheStep_same. reflexivity. Qed.

Lemma cacheStep_attempts (n : nat) (condition : M Ext (bool * option GoError)) :
  cacheStep R condition -> cacheStep R (attempts n condition).
Proof.
  intros Hc. induction n as [| n IH]; simpl.
  - apply cacheStep_ret.
  - apply cacheStep_bind; [exact Hc |].
    intros [[|] [e |]]; auto using cacheStep_ret.
Qed.

Lemma cacheStep_retry (backoff : option WaitBackoff)
    (fun_ : Service -> M Ext (option GoError)) (svc : Service) :
  cacheStep R (fun_ svc) -> cacheStep R (retry backoff fun_ svc).
Proof.
  intros Hf. unfold retry, ExponentialBackoff.
  apply cacheStep_attempts, cacheStep_bind; [exact Hf |].
  intros [e |]; [destruct (Contains _ _) |]; apply cacheStep_ret.
Qed.

Lemma cacheStep_persistStatus (newm : LoadBalancerStatus) (svc : Service) :
  cacheStep R (persistStatus newm svc).
Proof.
  unfold persistStatus.
  apply cacheStep_bind; [apply cacheStep_invoke |].
  intros [latest | e]; [| apply cacheStep_ret].
  apply cacheStep_bind; [apply cacheStep_invoke |].
  intros [e |]; [| apply cacheStep_ret].
  destruct (IsNotFound _); [apply cacheStep_ret |].
  destruct (IsConflict _); apply cacheStep_ret.
Qed.

Lemma cacheStep_updateStatus (svc : Service) (pre : LoadBalancerStatus)
    (newm : option LoadBalancerStatus) :
  cacheStep R (updateStatus svc pre newm).
Proof.
  unfold updateStatus. destruct newm as [st |]; [| apply cacheStep_ret].
  destruct (negb _); [| apply cacheStep_ret].
  apply cacheStep_retry, cacheStep_persistStatus.
Qed.

Lemma cacheStep_addServiceHash (svc : Service) : cacheStep R (addServiceHash svc).
Proof.
  unfold addServiceHash. destruct (GetServiceHash svc) as [h [e |]];
    [apply cacheStep_ret |].
  apply cacheStep_bind; [apply cacheStep_invoke |].
  intros [e |]; apply cacheStep_ret.
Qed.

Lemma cacheStep_removeServiceHash (svc : Service) :
  cacheStep R (removeServiceHash svc).
Proof.
  unfold removeServiceHash.
  destruct (svcLabels svc !! LabelServiceHash); [| apply cacheStep_ret].
  apply cacheStep_bind; [apply cacheStep_invoke |].
  intros [e |]; apply cacheStep_ret.
Qed.

Lemma cacheStep_AvailableNodes (svc : Service) : cacheStep R (AvailableNodes svc).
Proof.
  apply cacheStep_same. intros w.
  unfold AvailableNodes, NodeConditionPredicate, bind, observe, ret.
  destruct (lister_NodesList (ext w)) as [ns [e |]]; reflexivity.
Qed.

Lemma cacheStep_delete (con : Controller) (svc : Service) :
  removesOk R svc -> cacheStep R (delete con svc).
Proof.
  intros R_remove. unfold delete.
  apply cacheStep_bind; [apply cacheStep_invoke |].
  intros [e |]; (apply cacheStep_bind; [apply cacheStep_Eventf | intros _]).
  - apply cacheStep_ret.
  - apply cacheStep_bind; [| intros _; apply cacheStep_ret].
    intros w. apply R_remove.
Qed.

Lemma cacheStep_finishUpdate (svc : Service) (pre : LoadBalancerStatus)
    (newm : option LoadBalancerStatus) :
  setsOk R svc -> cacheStep R (finishUpdate svc pre newm).
Proof.
  intros R_set. unfold finishUpdate.
  apply cacheStep_bind; [apply cacheStep_updateStatus |].
  intros [e |]; [apply cacheStep_ret |].
  apply cacheStep_bind; [| intros _; apply cacheStep_ret].
  intros w. apply R_set.
Qed.

Lemma cacheStep_update (con : Controller) (cached : option Service)
    (svc : Service) :
  setsOk R svc -> removesOk R svc -> cacheStep R (update con cached svc).
Proof.
  intros R_set R_remove. unfold update.
  destruct (uidChanged cached svc);
    [apply cacheStep_retry, cacheStep_delete, R_remove |].
  destruct (negb (NeedLoadBalancer svc)).
  - apply cacheStep_bind; [apply cacheStep_invoke |].
    intros [exits [e |]]; [apply cacheStep_ret |].
    apply cacheStep_bind.
    + destruct exits; [apply cacheStep_retry, cacheStep_delete, R_remove |].
      apply cacheStep_bind; [| intros _; apply cacheStep_ret].
      intros w. apply R_remove.
    + intros [e |]; [apply cacheStep_ret |].
      apply cacheStep_bind; [apply cacheStep_removeServiceHash |].
      intros [e |]; [apply cacheStep_ret | apply cacheStep_finishUpdate, R_set].
  - apply cacheStep_bind; [apply cacheStep_AvailableNodes |].
    intros [nodes [e |]]; [apply cacheStep_ret |].
    apply cacheStep_bind.
    + destruct (length nodes =? 0)%nat; [apply cacheStep_Eventf | apply cacheStep_ret].
    + intros _. apply cacheStep_bind; [apply cacheStep_invoke |].
      intros [newm [e |]].
      * apply cacheStep_bind; [apply cacheStep_Eventf | intros _; apply cacheStep_ret].
      * apply cacheStep_bind; [apply cacheStep_Eventf | intros _].
        apply cacheStep_bind; [apply cacheStep_addServiceHash |].
        intros [e |]; [apply cacheStep_ret | apply cacheStep_finishUpdate, R_set].
Qed.

Lemma cacheStep_ServiceSyncTask (con : Controller) (k : string) :
  (forall svc, setsOk R svc) -> (forall svc, removesOk R svc) ->
  cacheStep R (ServiceSyncTask con k).
Proof.
  intros R_set R_remove. unfold ServiceSyncTask.
  destruct (SplitMetaNamespaceKey k) as [[ns name] | e]; [| apply cacheStep_ret].
  apply cacheStep_bind; [apply cacheStep_same; reflexivity |].
  intros cached. apply cacheStep_bind; [apply cacheStep_same; reflexivity |].
  intros [service err].
  destruct (IsNotFound err).
  - destruct cached;
      [apply cacheStep_retry, cacheStep_delete, R_remove | apply cacheStep_ret].
  - destruct err; [apply cacheStep_ret |].
    destruct service; [apply cacheStep_update; auto | apply cacheStep_ret].
Qed.
End Cache.
End Shapes.

Section CacheProperties.
Context `{OtherFiles} `{EventFilters} {Ext : Type} `{Collaborators Ext}.

Lemma agreeOff_trans (k : string) (c1 c2 c3 : gmap string Service) :
  agreeOff k c1 c2 -> agreeOff k c2 c3 -> agreeOff k c1 c3.
Proof. intros H12 H23 k' Hk. rewrite H23, H12 by exact Hk. reflexivity. Qed.

(** X4. [update] touches no cache entry but the one under the key of the
    service it is given, whatever path it takes and however it ends. *)
Theorem update_touches_own_key (con : Controller) (cached : option Service)
    (svc : Service) (w : World Ext) (k : string) :
  k <> key svc ->
  local (snd (update con cached svc w)) !! k = local w !! k.
Proof.
  intros Hk.
  apply (cacheStep_update (agreeOff (key svc)) (fun c k' _ => eq_refl)
           (agreeOff_trans (key svc)) con cached svc); [| | exact Hk].
  - intros c k' Hk'. apply lookup_insert_ne. congruence.
  - intros c k' Hk'. apply lookup_delete_ne. congruence.
Qed.

(** X5. When [update] fails for a service that needs a load balancer and
    whose UID is the cached one, the cache is what it was: the cache is
    written on success only. *)
Theorem update_failure_keeps_cache (con : Controller) (cached : option Service)
    (svc : Service) (w w' : World Ext) (e : GoError) :
  uidChanged cached svc = false ->
  NeedLoadBalancer svc = true ->
  update con cached svc w = (Some e, w') ->
  local w' = local w.
Proof.
  intros Huid Hneed. unfold update. rewrite Huid, Hneed. cbn [negb].
  pose proof (fun A (m : M Ext A) (Hm : cacheStep eq m) w0 => eq_sym (Hm w0)) as keep.
  assert (Hrefl : forall c : gmap string Service, c = c) by reflexivity.
  assert (Htrans : forall c1 c2 c3 : gmap string Service,
             c1 = c2 -> c2 = c3 -> c1 = c3) by (intros; congruence).
  unfold bind at 1.
  pose proof (keep _ _ (cacheStep_AvailableNodes eq Hrefl svc) w) as Hloc1.
  destruct (AvailableNodes svc w) as [[nodes [e1 |]] w1]; cbn [snd] in Hloc1.
  { intros [= _ <-]. exact Hloc1. }
  unfold bind at 1.
  match goal with
  | |- context [(if ?c then ?a else ?b) w1] =>
      assert (Hloc2 : local (snd ((if c then a else b) w1)) = local w1)
        by (destruct c; reflexivity);
      destruct ((if c then a else b) w1) as [[] w2]
  end.
  cbn [snd] in Hloc2. unfold bind at 1.
  match goal with
  | |- context [invoke ?c ?f w2] =>
      pose proof (keep _ _ (cacheStep_invoke eq Hrefl c f) w2) as Hloc3;
      destruct (invoke c f w2) as [[newm [e3 |]] w3]
  end; cbn [snd] in Hloc3.
  { unfold bind, Eventf, record, ret. intros [= _ <-]. cbn [local]. congruence. }
  unfold bind at 1.
  assert (Hloc4 : forall t r m, local (snd (@Eventf Ext svc t r m w3)) = local w3)
    by reflexivity.
  match goal with
  | |- context [Eventf ?s ?t ?r ?m w3] =>
      specialize (Hloc4 t r m); destruct (Eventf s t r m w3) as [[] w4]
  end.
  cbn [snd] in Hloc4. unfold bind at 1.
  pose proof (keep _ _ (cacheStep_addServiceHash eq Hrefl Htrans svc) w4) as Hloc5.
  destruct (addServiceHash svc w4) as [[e5 |] w5]; cbn [snd] in Hloc5.
  { intros [= _ <-]. congruence. }
  unfold finishUpdate, bind at 1.
  pose proof (keep _ _ (cacheStep_updateStatus eq Hrefl Htrans svc (svcStatus svc) newm) w5)
    as Hloc6.
  destruct (updateStatus svc (svcStatus svc) newm w5) as [[e6 |] w6]; cbn [snd] in Hloc6.
  - unfold ret. intros [= _ <-]. congruence.
  - unfold bind, contextSet, ret. discriminate.
Qed.

Lemma wellKeyed_insert (svc : Service) (c : gmap string Service) :
  wellKeyed c -> wellKeyed (<[key svc := svc]> c).
Proof.
  intros Hc k s. rewrite lookup_insert. case_decide as Hk.
  - intros [= <-]. exact Hk.
  - apply Hc.
Qed.

Lemma wellKeyed_delete (k0 : string) (c : gmap string Service) :
  wellKeyed c -> wellKeyed (base.delete k0 c).
Proof.
  intros Hc k s. rewrite lookup_delete. case_decide; [discriminate | apply Hc].
Qed.

(** X6. The cache stays well keyed: when every entry is stored under the
    key of the service it holds, this is still so after [ServiceSyncTask] on
    any key and after the handler of service deletions on any object. *)
Theorem cache_stays_wellKeyed (con : Controller) (k : string)
    (cur : option Service) (w : World Ext) :
  wellKeyed (local w) ->
  wellKeyed (local (snd (ServiceSyncTask con k w))) /\
  wellKeyed (local (snd (serviceDeleted cur w))).
Proof.
  intros Hw. split.
  - apply (cacheStep_ServiceSyncTask keepsWellKeyed (fun c Hc => Hc)
             (fun c1 c2 c3 H12 H23 Hc => H23 (H12 Hc)) con k); [| | exact Hw].
    + intros svc c Hc. exact (wellKeyed_insert svc c Hc).
    + intros svc c Hc. exact (wellKeyed_delete (key svc) c Hc).
  - unfold serviceDeleted.
    destruct cur as [svc |]; [| exact Hw].
    destruct (NeedDelete svc); [| exact Hw].
    unfold bind, contextSet, syncService. cbn [local].
    destruct (negb (isProcessNeeded svc)); cbn [snd local];
      exact (wellKeyed_insert svc _ Hw).
Qed.

(** X7. A deletion event reaches the cloud backend.  When the handler of
    service deletions admits an object whose namespace and name hold no
    slash and whose class annotation is empty, it stores the object in the
    cache and enqueues its key; when [ServiceSyncTask] then runs on that key
    and the lister reports the service as not found, its first call asks
    the cloud backend to delete the load balancer of that object. *)
Theorem deletion_event_reaches_backend (con : Controller) (svc : Service)
    (w : World Ext) :
  NeedDelete svc = true ->
  isProcessNeeded svc = true ->
  hasSlash (svcNamespace svc) = false ->
  hasSlash (svcName svc) = false ->
  IsNotFound (snd (lister_ServicesGet (svcNamespace svc) (svcName svc) (ext w))) = true ->
  fst (serviceDeleted (Some svc) w) = [key svc] /\
  local (snd (serviceDeleted (Some svc) w)) !! key svc = Some svc /\
  exists tail,
    calls (snd (ServiceSyncTask con (key svc) (snd (serviceDeleted (Some svc) w))))
    = calls w ++ CallEnsureLoadBalancerDeleted (clusterName con) svc :: tail.
Proof.
  intros Hdel Hproc Hns Hname Hnf.
  unfold serviceDeleted. rewrite Hdel.
  unfold bind, contextSet, syncService. rewrite Hproc. cbn [negb fst snd ret].
  unfold ret. cbn [fst snd local].
  split; [reflexivity | split; [apply lookup_insert_eq |]].
  match goal with
  | |- context [ServiceSyncTask con (key svc) ?w1] =>
      rewrite (deletion_run_is_retry_delete con (key svc) (svcNamespace svc)
                 (svcName svc) svc w1 (Split_key svc Hns Hname) Hnf
                 (lookup_insert_eq _ _ _));
      destruct (retry_delete_first con svc w1) as [tail Htail]
  end.
  exists tail. exact Htail.
Qed.
End CacheProperties.

(** ** The event handlers *)

Section HandlerProperties.
Context `{OtherFiles} `{EventFilters} {Ext : Type} `{Collaborators Ext}.

(** X8. A node event changes nothing and enqueues exactly the keys of the
    cached services that need a load balancer and carry no class
    annotation; the event of an excluded node, or of an object that is no
    node, enqueues nothing. *)
Theorem syncNodes_enqueues (object : option Node) (w : World Ext) (k : string) :
  snd (syncNodes object w) = w /\
  (k ∈ fst (syncNodes object w) <->
   exists node k0 svc,
     object = Some node /\ IsExcludedNode node = false /\
     local w !! k0 = Some svc /\
     NeedLoadBalancer svc = true /\ isProcessNeeded svc = true /\
     key svc = k).
Proof.
  unfold syncNodes. destruct object as [node |].
  - destruct (IsExcludedNode node) eqn:Hex.
    + split; [reflexivity |]. cbn [ret fst]. split.
      * intros Hin. apply elem_of_nil in Hin. contradiction.
      * intros (n & k0 & svc & [= <-] & Hn & _). congruence.
    + unfold bind, contextRange, ret. cbn [fst snd]. split; [reflexivity |].
      rewrite list_elem_of_omap. split.
      * intros ([k0 svc] & Hin & Hkey).
        apply elem_of_map_to_list in Hin.
        unfold nodeChangeKey in Hkey. cbn [snd] in Hkey.
        destruct (NeedLoadBalancer svc) eqn:Hneed; [| discriminate].
        destruct (isProcessNeeded svc) eqn:Hproc; [| discriminate].
        injection Hkey as <-. exists node, k0, svc. split_and!; auto.
      * intros (n & k0 & svc & _ & _ & Hin & Hneed & Hproc & <-).
        exists (k0, svc). split; [apply elem_of_map_to_list, Hin |].
        unfold nodeChangeKey. cbn [snd]. rewrite Hneed, Hproc. reflexivity.
  - split; [reflexivity |]. cbn [ret fst]. split.
    + intros Hin. apply elem_of_nil in Hin. contradiction.
    + intros (n & _ & _ & [=] & _).
Qed.

(** X9. An endpoints event whose service is cached reads nothing from the
    API server and changes nothing; without a cached service it reads the
    service once.  Either way it enqueues at most the key of a service that
    carries no class annotation and needs a load balancer. *)
Theorem syncEndpoints_enqueues (ep : Endpoints) (w : World Ext) :
  (forall svc,
      local w !! (epNamespace ep +:+ "/" +:+ epName ep) = Some svc ->
      syncEndpoints (Some ep) w
      = (if isProcessNeeded svc && NeedLoadBalancer svc then [key svc] else [], w)) /\
  (local w !! (epNamespace ep +:+ "/" +:+ epName ep) = None ->
   calls (snd (syncEndpoints (Some ep) w))
   = calls w ++ [CallServicesGet (epNamespace ep) (epName ep)] /\
   local (snd (syncEndpoints (Some ep) w)) = local w) /\
  (forall k, k ∈ fst (syncEndpoints (Some ep) w) ->
             exists svc, k = key svc /\ isProcessNeeded svc = true /\
                         NeedLoadBalancer svc = true).
Proof.
  unfold syncEndpoints, bind, contextGet, ret. cbn [fst snd].
  destruct (local w !! (epNamespace ep +:+ "/" +:+ epName ep)) as [svc |] eqn:Hc.
  - repeat split.
    + intros svc0 [= <-].
      destruct (isProcessNeeded svc), (NeedLoadBalancer svc); reflexivity.
    + discriminate.
    + discriminate.
    + intros k.
      destruct (isProcessNeeded svc) eqn:Hp, (NeedLoadBalancer svc) eqn:Hn;
        cbn [negb fst]; intros Hin;
        try (apply elem_of_nil in Hin; contradiction).
      apply list_elem_of_singleton in Hin. subst k. eauto.
  - unfold invoke, bind, record, external. cbn [ext calls local].
    destruct (client_ServicesGet _ _ _) as [[svc | e] x]; cbn [ext calls local].
    + repeat split; try discriminate;
        destruct (isProcessNeeded svc) eqn:Hp, (NeedLoadBalancer svc) eqn:Hn;
        cbn [negb fst snd calls local]; try reflexivity;
        intros k Hin; try (apply elem_of_nil in Hin; contradiction).
      apply list_elem_of_singleton in Hin. subst k. eauto.
    + repeat split; try discriminate; try reflexivity.
      intros k Hin. cbn [fst] in Hin. apply elem_of_nil in Hin. contradiction.
Qed.
End HandlerProperties.

(** ** The worker *)

Lemma workerDelays_in_range :
  Forall (fun d => 5 * Second <= d <= 120 * Second) workerDelays.
Proof. repeat constructor; vm_compute; discriminate. Qed.

Lemma workerState_Next_in_range (now : Time) (b : RequeueBackoff) :
  workerState b -> 5 * Second <= fst (Next now b) <= 120 * Second.
Proof.
  intros Hb. destruct (workerState_Next now b Hb) as [[_ Hin] _].
  change (next (snd (Next now b))) with (fst (Next now b)) in Hin.
  pose proof workerDelays_in_range as Hall.
  rewrite Forall_forall in Hall. apply Hall, list_elem_of_In, Hin.
Qed.

Section WorkerProperties.
Context `{OtherFiles} {Ext : Type} `{Collaborators Ext}.

Lemma workerTurn_in_range (syncd : SyncTask) (got : string * bool) (now : Time)
    (back : RequeueBackoff) (w : World Ext) :
  workerState back ->
  Forall requeueDelayOk (fst (fst (workerTurn syncd got now back w))) /\
  workerState (snd (fst (workerTurn syncd got now back w))).
Proof.
  intros Hb. unfold workerTurn. destruct got as [item quit].
  destruct quit; [split; [constructor | exact Hb] |].
  unfold bind, ret. destruct (syncd item w) as [[e |] w1].
  - destruct (Contains (Error e) "Throttling").
    + pose proof (workerState_Next_in_range now back Hb) as Hr.
      pose proof (proj1 (workerState_Next now back Hb)) as Hs.
      destruct (Next now back) as [d back1]. cbn [fst snd] in *.
      split; [| exact Hs].
      constructor; [exact Hr | constructor; [exact I | constructor]].
    + cbn [fst snd]. split; [| exact Hb].
      constructor; [| constructor; [exact I | constructor]].
      unfold requeueDelayOk, Second, Nanosecond. lia.
  - cbn [fst snd]. split; [| exact Hb].
    constructor; [exact I | constructor].
Qed.

Lemma workerState_ticked (firings : list Time) (b : RequeueBackoff) :
  workerState b -> workerState (ticked firings b).
Proof.
  unfold ticked. revert b.
  induction firings as [| t rest IH]; intros b Hb; [exact Hb |].
  cbn [fold_left]. apply IH, workerState_resetTick, Hb.
Qed.

(** X10. Whatever the sync task does, however many turns a worker takes
    and whenever the ticker of its backoff fires in between, every delay
    with which the worker requeues a key lies between 5 and 120 seconds. *)
Theorem WorkerFunc_requeue_delays (syncd : SyncTask) (start born : Time)
    (gots : list (string * bool * Time)) (w : World Ext) :
  Forall requeueDelayOk (fst (fst (WorkerFunc syncd start born gots w))).
Proof.
  unfold WorkerFunc.
  assert (Hb : workerState (NewBackoff start (5 * Second) workerFactor))
    by (split; [reflexivity | left; reflexivity]).
  revert Hb. generalize (NewBackoff start (5 * Second) workerFactor) as back.
  generalize start as since.
  revert w. induction gots as [| [got now] rest IH]; intros w since back Hb.
  - constructor.
  - cbn [workerTurns]. unfold bind at 1.
    apply (workerState_ticked (tickerFirings born since now)) in Hb.
    destruct (workerTurn_in_range syncd got now _ w Hb) as [Hops Hb1].
    destruct (workerTurn syncd got now _ w) as [[ops back1] w1].
    cbn [fst snd] in *. unfold bind at 1.
    specialize (IH w1 now back1 Hb1).
    destruct (workerTurns syncd born now rest back1 w1) as [[ops' back2] w2].
    cbn [fst snd ret] in *. unfold ret. cbn [fst].
    apply Forall_app. auto.
Qed.
End WorkerProperties.

(** The ticker at work: a worker that was throttled three times in a row
    requeues with growing delays; after a gap of 100 seconds the ticker has
    found the last throttling more than a minute old, and the next throttled
    turn starts again from 7.5 seconds.  Without the gap the fourth delay
    is 25.3125 seconds. *)
Lemma WorkerFunc_after_quiet_gap :
  fst (fst (WorkerFunc throttled 0 0 burstThenGap (startWorld quietScript ∅)))
  = [ QueueAddAfter "default/web" 7500000000; QueueDone "default/web";
      QueueAddAfter "default/web" 11250000000; QueueDone "default/web";
      QueueAddAfter "default/web" 16875000000; QueueDone "default/web";
      QueueAddAfter "default/web" 7500000000; QueueDone "default/web" ] /\
  fst (fst (WorkerFunc throttled 0 0
              [ ("default/web", false, 1 * Second);
                ("default/web", false, 9 * Second);
                ("default/web", false, 21 * Second);
                ("default/web", false, 41 * Second) ]
              (startWorld quietScript ∅)))
  = [ QueueAddAfter "default/web" 7500000000; QueueDone "default/web";
      QueueAddAfter "default/web" 11250000000; QueueDone "default/web";
      QueueAddAfter "default/web" 16875000000; QueueDone "default/web";
      QueueAddAfter "default/web" 25312500000; QueueDone "default/web" ].
Proof. split; vm_compute; reflexivity. Qed.

(** ** Budgets of the retries *)

Section RetryBudgets.
Context `{OtherFiles} {Ext : Type} `{Collaborators Ext}.

Lemma delete_failing (con : Controller) (svc : Service) (w : World Ext) :
  fst (cloud_EnsureLoadBalancerDeleted (clusterName con) svc (ext w)) <> None ->
  exists l,
    fst (delete con svc w) = Some (Errorf TRY_AGAIN) /\
    local (snd (delete con svc w)) = local w /\
    calls (snd (delete con svc w)) = calls w ++ l /\
    length (List.filter isDelete l) = 1%nat.
Proof.
  intros Hfail.
  unfold delete, invoke, Eventf, bind, ret, record, external, contextRemove.
  cbn [ext calls local].
  destruct (cloud_EnsureLoadBalancerDeleted _ _ _) as [[e |] x];
    [| contradiction].
  cbn [fst snd calls ext local]. rewrite <- app_assoc.
  eexists. repeat split.
Qed.

(** X11. When the cloud backend fails every delete, the retried [delete]
    gives up with the timeout error after exactly eight calls of the delete
    operation, and the cache is what it was. *)
Theorem retry_delete_gives_up (con : Controller) (svc : Service) (w : World Ext) :
  (forall x, fst (cloud_EnsureLoadBalancerDeleted (clusterName con) svc x) <> None) ->
  fst (retry None (delete con) svc w) = Some ErrWaitTimeout /\
  local (snd (retry None (delete con) svc w)) = local w /\
  length (List.filter isDelete (callsSince w (snd (retry None (delete con) svc w))))
  = 8%nat.
Proof.
  intros Hfail. unfold retry, ExponentialBackoff.
  change (Z.to_nat (wbSteps defaultBackoff)) with 8%nat.
  generalize 8%nat as n. intros n.
  match goal with
  | |- context [attempts n ?c] => set (condition := c)
  end.
  assert (Hgen : forall w0, exists l,
             fst (attempts n condition w0) = Some ErrWaitTimeout /\
             local (snd (attempts n condition w0)) = local w0 /\
             calls (snd (attempts n condition w0)) = calls w0 ++ l /\
             length (List.filter isDelete l) = n).
  { induction n as [| n IH]; intros w0.
    - exists []. simpl. rewrite app_nil_r. auto.
    - destruct (delete_failing con svc w0 (Hfail (ext w0)))
        as (l1 & Hr & Hloc & Hcalls & Hcount).
      destruct (delete con svc w0) as [r w1] eqn:Hdel. cbn [fst snd] in *. subst r.
      assert (Hstep : attempts (S n) condition w0 = attempts n condition w1).
      { cbn [attempts]. unfold bind at 1, condition at 1, bind at 1.
        rewrite Hdel.
        replace (Contains (Error (Errorf TRY_AGAIN)) TRY_AGAIN) with true
          by (vm_compute; reflexivity).
        reflexivity. }
      rewrite Hstep.
      destruct (IH w1) as (l2 & Hr2 & Hloc2 & Hcalls2 & Hcount2).
      exists (l1 ++ l2). rewrite Hr2, Hloc2, Hloc, Hcalls2, Hcalls, app_assoc.
      rewrite List.filter_app, length_app, Hcount, Hcount2. auto. }
  destruct (Hgen w) as (l & Hr & Hloc & Hcalls & Hcount).
  unfold callsSince. rewrite Hr, Hloc, Hcalls, drop_app_length. auto.
Qed.

Lemma persistStatus_calls (newm : LoadBalancerStatus) (svc : Service) :
  emitsOnly (statusCall svc newm) (persistStatus newm svc) /\
  emitsAtMost 2 (persistStatus newm svc).
Proof.
  unfold persistStatus. split.
  - apply emitsOnly_bind; [apply emitsOnly_invoke; left; reflexivity |].
    intros [latest | e]; [| apply emitsOnly_ret].
    apply emitsOnly_bind; [apply emitsOnly_invoke; right; eauto |].
    intros [e |]; [| apply emitsOnly_ret].
    destruct (IsNotFound _); [apply emitsOnly_ret |].
    destruct (IsConflict _); apply emitsOnly_ret.
  - apply (emitsAtMost_bind _ _ 1 1); [apply emitsAtMost_invoke |].
    intros [latest | e]; [| apply emitsAtMost_ret].
    apply (emitsAtMost_weaken _ (1 + 0)); [lia |].
    apply emitsAtMost_bind; [apply emitsAtMost_invoke |].
    intros [e |]; [| apply emitsAtMost_ret].
    destruct (IsNotFound _); [apply emitsAtMost_ret |].
    destruct (IsConflict _); apply emitsAtMost_ret.
Qed.

(** X12. Given a new status, [updateStatus] issues six calls at most, each
    a read of the service by its namespace and name or a status write that
    carries the new status, and it leaves the cache as it was. *)
Theorem updateStatus_budget (svc : Service) (pre newm : LoadBalancerStatus)
    (w : World Ext) :
  exists l,
    calls (snd (updateStatus svc pre (Some newm) w)) = calls w ++ l /\
    (length l <= 6)%nat /\
    Forall (statusCall svc newm) l /\
    local (snd (updateStatus svc pre (Some newm) w)) = local w.
Proof.
  destruct (persistStatus_calls newm svc) as [Honly Hmost].
  assert (Hm : emitsAtMost 6 (updateStatus svc pre (Some newm))).
  { unfold updateStatus. destruct (negb _); [| apply emitsAtMost_ret].
    unfold retry, ExponentialBackoff.
    change (Z.to_nat (wbSteps statusBackoff)) with 3%nat.
    apply (emitsAtMost_attempts 3 2).
    apply (emitsAtMost_weaken _ (2 + 0)); [lia |].
    apply emitsAtMost_bind; [exact Hmost |].
    intros [e |]; [destruct (Contains _ _) |]; apply emitsAtMost_ret. }
  assert (Ho : emitsOnly (statusCall svc newm) (updateStatus svc pre (Some newm))).
  { unfold updateStatus. destruct (negb _); [| apply emitsOnly_ret].
    apply emitsOnly_retry, Honly. }
  destruct (Hm w) as (l & Hl & Hlen). destruct (Ho w) as (l' & Hl' & Hall).
  assert (l' = l) by (rewrite Hl in Hl'; apply app_inv_head in Hl'; auto).
  subst l'. exists l. split_and!; auto.
  symmetry.
  apply (cacheStep_updateStatus eq (fun c => eq_refl)
           (fun c1 c2 c3 H12 H23 => eq_trans H12 H23) svc pre (Some newm) w).
Qed.
End RetryBudgets.

(** ** What [update] hands to the cloud backend *)

Section EnsureArguments.
Context `{OtherFiles} {Ext : Type} `{Collaborators Ext}.
Variable P : Call -> Prop.
Hypothesis P_other : forall c, isEnsure c = false -> P c.

Lemma emitsOnly_delete (con : Controller) (svc : Service) :
  emitsOnly P (delete con svc).
Proof.
  unfold delete.
  apply emitsOnly_bind; [apply emitsOnly_invoke, P_other; reflexivity |].
  intros [e |];
    (apply emitsOnly_bind; [apply emitsOnly_Eventf, P_other; reflexivity | intros _]).
  - apply emitsOnly_ret.
  - apply emitsOnly_bind; [| intros _; apply emitsOnly_ret].
    apply emitsOnly_silent. reflexivity.
Qed.

Lemma emitsOnly_PatchService (old new : Service) :
  emitsOnly P (PatchService old new).
Proof. apply emitsOnly_invoke, P_other. reflexivity. Qed.

Lemma emitsOnly_addServiceHash (svc : Service) : emitsOnly P (addServiceHash svc).
Proof.
  unfold addServiceHash. destruct (GetServiceHash svc) as [h [e |]];
    [apply emitsOnly_ret |].
  apply emitsOnly_bind; [apply emitsOnly_PatchService |].
  intros [e |]; apply emitsOnly_ret.
Qed.

Lemma emitsOnly_removeServiceHash (svc : Service) :
  emitsOnly P (removeServiceHash svc).
Proof.
  unfold removeServiceHash.
  destruct (svcLabels svc !! LabelServiceHash); [| apply emitsOnly_ret].
  apply emitsOnly_bind; [apply emitsOnly_PatchService |].
  intros [e |]; apply emitsOnly_ret.
Qed.

Lemma emitsOnly_finishUpdate (svc : Service) (pre : LoadBalancerStatus)
    (newm : option LoadBalancerStatus) :
  emitsOnly P (finishUpdate svc pre newm).
Proof.
  unfold finishUpdate. apply emitsOnly_bind.
  - unfold updateStatus. destruct newm as [st |]; [| apply emitsOnly_ret].
    destruct (negb _); [| apply emitsOnly_ret].
    apply emitsOnly_retry. unfold persistStatus.
    apply emitsOnly_bind; [apply emitsOnly_invoke, P_other; reflexivity |].
    intros [latest | e]; [| apply emitsOnly_ret].
    apply emitsOnly_bind; [apply emitsOnly_invoke, P_other; reflexivity |].
    intros [e |]; [| apply emitsOnly_ret].
    destruct (IsNotFound _); [apply emitsOnly_ret |].
    destruct (IsConflict _); apply emitsOnly_ret.
  - intros [e |]; [apply emitsOnly_ret |].
    apply emitsOnly_bind; [| intros _; apply emitsOnly_ret].
    apply emitsOnly_silent. reflexivity.
Qed.
End EnsureArguments.

Section EnsureArgumentsOfUpdate.
Context `{OtherFiles} {Ext : Type} `{Collaborators Ext}.

Lemma ensuresWith_other (cn : string) (svc : Service) (nodes : list Node) (c : Call) :
  isEnsure c = false -> ensuresWith cn svc nodes c.
Proof. destruct c; simpl; auto; discriminate. Qed.

Lemma update_calls_ensuresWith (con : Controller) (cached : option Service)
    (svc : Service) (w : World Ext) :
  exists l,
    calls (snd (update con cached svc w)) = calls w ++ l /\
    Forall (ensuresWith (clusterName con) svc
              (List.filter (predicate svc) (fst (lister_NodesList (ext w))))) l.
Proof.
  set (P := ensuresWith (clusterName con) svc
              (List.filter (predicate svc) (fst (lister_NodesList (ext w))))).
  assert (P_other : forall c, isEnsure c = false -> P c)
    by (intros c; apply ensuresWith_other).
  assert (Hpoint : forall A (m : M Ext A), emitsOnly P m ->
            exists l, calls (snd (m w)) = calls w ++ l /\ Forall P l)
    by (intros A m Hm; exact (Hm w)).
  unfold update.
  destruct (uidChanged cached svc);
    [apply Hpoint, emitsOnly_retry, emitsOnly_delete, P_other |].
  destruct (negb (NeedLoadBalancer svc)).
  - apply Hpoint.
    apply emitsOnly_bind; [apply emitsOnly_invoke, P_other; reflexivity |].
    intros [exits [e |]]; [apply emitsOnly_ret |].
    apply emitsOnly_bind.
    + destruct exits; [apply emitsOnly_retry, emitsOnly_delete, P_other |].
      apply emitsOnly_bind; [| intros _; apply emitsOnly_ret].
      apply emitsOnly_silent. reflexivity.
    + intros [e |]; [apply emitsOnly_ret |].
      apply emitsOnly_bind; [apply emitsOnly_removeServiceHash, P_other |].
      intros [e |]; [apply emitsOnly_ret | apply emitsOnly_finishUpdate, P_other].
  - unfold bind at 1.
    destruct (AvailableNodes svc w) as [[nodes [e |]] w1] eqn:Havail.
    + exists []. cbn [ret snd].
      assert (w1 = w) as ->.
      { revert Havail. unfold AvailableNodes, NodeConditionPredicate, bind, observe, ret.
        destruct (lister_NodesList (ext w)) as [ns [e0 |]]; congruence. }
      rewrite app_nil_r. auto.
    + assert (Hw : w1 = w /\ nodes = List.filter (predicate svc)
                                       (fst (lister_NodesList (ext w)))).
      { revert Havail. unfold AvailableNodes, NodeConditionPredicate, bind, observe, ret.
        destruct (lister_NodesList (ext w)) as [ns [e0 |]]; [discriminate |].
        intros [= <- <-]. auto. }
      destruct Hw as [-> Hnodes].
      apply Hpoint.
      apply emitsOnly_bind.
      * destruct (length nodes =? 0)%nat;
          [apply emitsOnly_Eventf, P_other; reflexivity | apply emitsOnly_ret].
      * intros _. apply emitsOnly_bind.
        -- apply emitsOnly_invoke. unfold P. cbn. auto.
        -- intros [newm [e |]].
           ++ apply emitsOnly_bind;
                [apply emitsOnly_Eventf, P_other; reflexivity
                | intros _; apply emitsOnly_ret].
           ++ apply emitsOnly_bind;
                [apply emitsOnly_Eventf, P_other; reflexivity | intros _].
              apply emitsOnly_bind; [apply emitsOnly_addServiceHash, P_other |].
              intros [e |];
                [apply emitsOnly_ret | apply emitsOnly_finishUpdate, P_other].
Qed.

(** X13. Whenever [update] calls the ensure operation of the cloud backend,
    it does so for the service it was given and with exactly the nodes of the
    lister that pass the eligibility predicate of that service, in the order
    of the lister; every such node is eligible. *)
Theorem update_ensures_eligible_nodes (con : Controller) (cached : option Service)
    (svc : Service) (w : World Ext) (cn : string) (s : Service) (nodes : list Node) :
  In (CallEnsureLoadBalancer cn s nodes)
     (callsSince w (snd (update con cached svc w))) ->
  cn = clusterName con /\ s = svc /\
  nodes = List.filter (predicate svc) (fst (lister_NodesList (ext w))) /\
  Forall (fun node => predicate svc node = true) nodes.
Proof.
  destruct (update_calls_ensuresWith con cached svc w) as (l & Hl & Hall).
  unfold callsSince. rewrite Hl, drop_app_length. intros Hin.
  rewrite List.Forall_forall in Hall. specialize (Hall _ Hin).
  destruct Hall as (-> & -> & ->). split_and!; auto.
  apply List.Forall_forall. intros node Hnode.
  apply List.filter_In in Hnode. tauto.
Qed.
End EnsureArgumentsOfUpdate.

(** ** More on the eligibility predicate *)

Section EligibilityScenarios.
Context `{OtherFiles}.

(** X14. Whether a node is unschedulable matters only to services that opt
    in: unless the annotation of the service reads "on", the predicate
    answers for an unschedulable node as for the same node schedulable; with
    the annotation, an unschedulable node is never eligible. *)
Theorem predicate_unschedulable (svc : Service) (node : Node) (flag : bool) :
  (GoIndex (svcAnnotations svc)
     ServiceAnnotationLoadBalancerRemoveUnscheduledBackend <> "on" ->
   predicate svc (withUnschedulable node flag) = predicate svc node) /\
  (GoIndex (svcAnnotations svc)
     ServiceAnnotationLoadBalancerRemoveUnscheduledBackend = "on" ->
   predicate svc (withUnschedulable node true) = false).
Proof.
  unfold predicate, withUnschedulable;
    cbn [nodeUnschedulable nodeLabels nodeConditions].
  split; intros Ha.
  - apply String.eqb_neq in Ha. rewrite Ha, !andb_false_r. reflexivity.
  - rewrite Ha. reflexivity.
Qed.

(** X15. A node without the virtual-node label, schedulable and without
    the master label, is eligible exactly when it reports at least one
    condition and none of its conditions is a Ready condition whose status is
    not True; so a node that reports no condition is not eligible, and a node
    that reports conditions but no Ready condition is. *)
Theorem predicate_plain_node (svc : Service) (node : Node) :
  nodeUnschedulable node = false ->
  nodeLabels node !! LabelNodeRoleMaster = None ->
  nodeLabels node !! "type" <> Some ECINodeLabel ->
  (predicate svc node = true <->
   nodeConditions node <> [] /\
   Forall (fun cond => condType cond = NodeReady -> condStatus cond = ConditionTrue)
     (nodeConditions node)).
Proof.
  intros Hs Hm Heci. unfold predicate. rewrite Hs, Hm. cbn [andb].
  rewrite bool_decide_eq_false_2 by (intros [x Hx]; discriminate).
  cbn [andb]. rewrite (bool_decide_eq_false_2 _ Heci).
  destruct (nodeConditions node) as [| c cs] eqn:Hc.
  - cbn. split; [discriminate | intros [Hne _]; congruence].
  - cbn [length Nat.eqb]. rewrite negb_true_iff. split.
    + intros Hex. split; [discriminate |].
      apply List.Forall_forall. intros cond Hin Hty.
      destruct (String.eqb (condStatus cond) ConditionTrue) eqn:Hst;
        [apply String.eqb_eq, Hst |].
      assert (Hbad : existsb notReady (c :: cs) = true).
      { apply existsb_exists. exists cond. split; [exact Hin |].
        unfold notReady. rewrite Hty, String.eqb_refl, Hst. reflexivity. }
      congruence.
    + intros [_ Hall]. rewrite List.Forall_forall in Hall.
      destruct (existsb notReady (c :: cs)) eqn:Hex; [| reflexivity].
      apply existsb_exists in Hex as (cond & Hin & Hbad).
      unfold notReady in Hbad. apply andb_true_iff in Hbad as [Hty Hst].
      apply String.eqb_eq in Hty. rewrite (Hall cond Hin Hty) in Hst.
      rewrite String.eqb_refl in Hst. discriminate.
Qed.
End EligibilityScenarios.

(** ** getLogMessage *)

Lemma prefix_first_line (p s : string) :
  hasChar newline p = false ->
  String.prefix p s = String.prefix p (hd EmptyString (Split s newline)).
Proof.
  revert s. induction p as [| a p IH]; intros s Hp.
  - destruct s; simpl; [reflexivity |]. now destruct (hd _ _).
  - cbn [hasChar] in Hp. apply orb_false_elim in Hp as [Ha Hp].
    destruct s as [| c s]; [reflexivity |].
    cbn [Split]. destruct (Ascii.eqb c newline) eqn:Hc.
    + apply Ascii.eqb_eq in Hc. subst c. cbn [hd String.prefix].
      destruct (ascii_dec a newline) as [-> | Hne]; [| reflexivity].
      rewrite Ascii.eqb_refl in Ha. discriminate.
    + pose proof (IH s Hp) as IHs.
      destruct (Split s newline) as [| h t] eqn:Hsplit;
        [exfalso; exact (Split_nonempty _ _ Hsplit) |].
      cbn [hd String.prefix] in *. destruct (ascii_dec a c); [exact IHs | reflexivity].
Qed.

Lemma Contains_lines (p s : string) :
  hasChar newline p = false ->
  Contains s p = existsb (fun line => Contains line p) (Split s newline).
Proof.
  intros Hp. induction s as [| c s IH].
  - cbn. now rewrite !orb_false_r.
  - cbn [Contains]. rewrite IH.
    rewrite (prefix_first_line p (String c s) Hp).
    cbn [Split]. destruct (Ascii.eqb c newline) eqn:Hc.
    + cbn [hd existsb Contains]. rewrite orb_false_r. reflexivity.
    + destruct (Split s newline) as [| h t] eqn:Hsplit;
        [exfalso; exact (Split_nonempty _ _ Hsplit) |].
      cbn [hd existsb Contains]. rewrite orb_assoc. reflexivity.
Qed.

Lemma lastMessage_spec (line : string) :
  match lastMessage line with
  | Some m => String.prefix "Message:" m = true /\ Contains line "Message:" = true
  | None => Contains line "Message:" = false
  end.
Proof.
  induction line as [| c rest IH].
  - reflexivity.
  - cbn [lastMessage Contains].
    destruct (lastMessage rest) as [m |].
    + destruct IH as [Hm Hc]. rewrite Hc, orb_true_r. auto.
    + rewrite IH, orb_false_r.
      destruct (String.prefix "Message:" (String c rest)) eqn:Hp; auto.
Qed.

Lemma firstMessage_spec (lines : list string) :
  match firstMessage lines with
  | Some m => String.prefix "Message:" m = true /\
              existsb (fun line => Contains line "Message:") lines = true
  | None => existsb (fun line => Contains line "Message:") lines = false
  end.
Proof.
  induction lines as [| l ls IH]; [reflexivity |].
  cbn [firstMessage existsb]. pose proof (lastMessage_spec l) as Hl.
  destruct (lastMessage l) as [m |].
  - destruct Hl as [Hm Hc]. rewrite Hc. auto.
  - rewrite Hl. exact IH.
Qed.

(** X16. [getLogMessage] returns the text of the error unchanged when the
    text does not contain [Message:], and otherwise returns a text that
    begins with [Message:]. *)
Theorem getLogMessage_spec (err : GoError) :
  (Contains (Error err) "Message:" = false -> getLogMessage err = Error err) /\
  (Contains (Error err) "Message:" = true ->
   String.prefix "Message:" (getLogMessage err) = true).
Proof.
  unfold getLogMessage.
  rewrite (Contains_lines "Message:" (Error err)) by reflexivity.
  pose proof (firstMessage_spec (Split (Error err) newline)) as Hf.
  destruct (firstMessage (Split (Error err) newline)) as [m |].
  - destruct Hf as [Hm Hc]. split; [congruence | auto].
  - split; [reflexivity | congruence].
Qed.

(** ** The node controller *)

Lemma runBatches_single {S : Type}
    (batch : list NodeObject -> S -> option GoError * S)
    (b : list NodeObject) (s : S) :
  runBatches batch [b] s = batch b s.
Proof. simpl. destruct (batch b s) as [[e |] s']; reflexivity. Qed.

Lemma batchLoop_batches (fuel : nat) (nodes : list NodeObject) :
  (length nodes <= fuel)%nat ->
  exists bs : list (list NodeObject),
    concat bs = nodes /\
    Forall (fun b => (1 <= length b <= MAX_BATCH_NUM)%nat) bs /\
    forall (S : Type) (batch : list NodeObject -> S -> option GoError * S) (s : S),
      batchLoop fuel nodes batch s = runBatches batch bs s.
Proof.
  revert nodes. induction fuel as [| fuel IH]; intros nodes Hlen.
  - destruct nodes; [| simpl in Hlen; lia].
    exists []. split; [reflexivity | split; [constructor | reflexivity]].
  - cbn [batchLoop].
    destruct (MAX_BATCH_NUM <? length nodes)%nat eqn:Hbig.
    + apply Nat.ltb_lt in Hbig.
      destruct (IH (drop MAX_BATCH_NUM nodes)) as (bs & Hcat & Hsizes & Hrun).
      { rewrite length_drop. unfold MAX_BATCH_NUM in *. lia. }
      exists (take MAX_BATCH_NUM nodes :: bs). split; [| split].
      * cbn [concat]. rewrite Hcat. apply take_drop.
      * constructor; [| exact Hsizes].
        rewrite length_take. unfold MAX_BATCH_NUM in *. lia.
      * intros S batch s. cbn [runBatches].
        destruct (batch (take MAX_BATCH_NUM nodes) s) as [[e |] s'];
          [reflexivity | apply Hrun].
    + apply Nat.ltb_ge in Hbig.
      destruct (length nodes <=? 0)%nat eqn:Hzero.
      * apply Nat.leb_le in Hzero. destruct nodes; [| simpl in Hzero; lia].
        exists []. split; [reflexivity | split; [constructor | reflexivity]].
      * apply Nat.leb_gt in Hzero.
        exists [nodes]. split; [| split].
        -- cbn. apply app_nil_r.
        -- constructor; [lia | constructor].
        -- intros S batch s. symmetry. apply runBatches_single.
Qed.

(** X17. [batchAddressUpdate] cuts the nodes into consecutive batches, none
    empty and none longer than [MAX_BATCH_NUM], that together are the list it
    was given, and hands them to [batch] in order up to the first error; for
    an empty list it does not call [batch]. *)
Theorem batchAddressUpdate_batches (nodes : list NodeObject) :
  exists bs : list (list NodeObject),
    concat bs = nodes /\
    Forall (fun b => (1 <= length b <= MAX_BATCH_NUM)%nat) bs /\
    forall (S : Type) (batch : list NodeObject -> S -> option GoError * S) (s : S),
      batchAddressUpdate nodes batch s = runBatches batch bs s.
Proof. apply batchLoop_batches. reflexivity. Qed.

(** X18. [setHostnameAddress] keeps the addresses of the cloud in front and
    in order, adds the hostname addresses of the node only when the cloud
    gave none, and applying it again changes nothing. *)
Theorem setHostnameAddress_idempotent (node : NodeObject) (addrs : list NodeAddress) :
  (exists added,
      setHostnameAddress node addrs = addrs ++ added /\
      Forall (fun a => isHostName a = true /\ In a (objAddresses node)) added /\
      (existsb isHostName addrs = true -> added = [])) /\
  setHostnameAddress node (setHostnameAddress node addrs)
  = setHostnameAddress node addrs.
Proof.
  unfold setHostnameAddress.
  destruct (existsb isHostName addrs) eqn:Hex.
  - split; [| rewrite Hex; reflexivity].
    exists []. rewrite app_nil_r. auto.
  - split.
    + exists (List.filter isHostName (objAddresses node)).
      split; [reflexivity | split; [| discriminate]].
      apply List.Forall_forall. intros a Ha. apply List.filter_In in Ha. tauto.
    + rewrite existsb_app, Hex. cbn [orb].
      destruct (existsb isHostName (List.filter isHostName (objAddresses node)))
        eqn:Hadded; [reflexivity |].
      assert (Hnone : List.filter isHostName (objAddresses node) = []).
      { destruct (List.filter isHostName (objAddresses node)) as [| a l] eqn:Hf;
          [reflexivity |].
        assert (Ha : In a (List.filter isHostName (objAddresses node)))
          by (rewrite Hf; left; reflexivity).
        apply List.filter_In in Ha as [_ Ha].
        cbn [existsb] in Hadded. rewrite Ha in Hadded. discriminate. }
      rewrite Hnone, !app_nil_r. reflexivity.
Qed.

Lemma addressMap_snoc (l : list NodeAddress) (a : NodeAddress) :
  addressMap (l ++ [a]) = <[addrType a := addrAddress a]> (addressMap l).
Proof. unfold addressMap. rewrite foldl_app. reflexivity. Qed.

Lemma addressMap_lookup_Some (l : list NodeAddress) (t v : string) :
  addressMap l !! t = Some v ->
  exists a, In a l /\ addrType a = t /\ addrAddress a = v.
Proof.
  induction l as [| a l IH] using rev_ind.
  - unfold addressMap. cbn. rewrite lookup_empty. discriminate.
  - rewrite addressMap_snoc, lookup_insert. case_decide as Ht.
    + intros [= <-]. exists a. rewrite in_app_iff. cbn. auto.
    + intros Hl. destruct (IH Hl) as (a' & Hin & Hty & Hv).
      exists a'. rewrite in_app_iff. auto.
Qed.

Lemma addressMap_lookup_NoDup (l : list NodeAddress) (a : NodeAddress) :
  List.NoDup (map addrType l) -> In a l ->
  addressMap l !! addrType a = Some (addrAddress a).
Proof.
  induction l as [| x l IH] using rev_ind; [contradiction |].
  intros Hnd Hin. rewrite addressMap_snoc, lookup_insert.
  rewrite map_app in Hnd. cbn [map] in Hnd.
  apply in_app_iff in Hin as [Hin | [<- | []]].
  - case_decide as Hx.
    + exfalso.
      apply List.NoDup_remove_2 in Hnd. rewrite app_nil_r in Hnd.
      apply Hnd. rewrite Hx. apply in_map, Hin.
    + apply IH; [| exact Hin].
      apply List.NoDup_remove_1 in Hnd. rewrite app_nil_r in Hnd. exact Hnd.
  - case_decide; [reflexivity | congruence].
Qed.

(** X19. [isNodeAddressChanged] reports no change between a list of
    addresses and itself, and reports a change between lists of different
    lengths.  When it reports no change and the first list holds each address
    type once, every non-empty address of the first list occurs in the
    second with the same type. *)
Theorem isNodeAddressChanged_spec (addr1 addr2 : list NodeAddress) :
  isNodeAddressChanged addr1 addr1 = false /\
  (length addr1 <> length addr2 -> isNodeAddressChanged addr1 addr2 = true) /\
  (isNodeAddressChanged addr1 addr2 = false ->
   List.NoDup (map addrType addr1) ->
   length addr1 = length addr2 /\
   forall a, In a addr1 -> addrAddress a <> EmptyString ->
             exists a', In a' addr2 /\ addrType a' = addrType a /\
                        addrAddress a' = addrAddress a).
Proof.
  unfold isNodeAddressChanged. split; [| split].
  - rewrite Nat.eqb_refl. cbn [negb].
    rewrite bool_decide_eq_true_2; [reflexivity |].
    intros k v Hk. unfold GoIndex. rewrite Hk. reflexivity.
  - intros Hlen. apply Nat.eqb_neq in Hlen. rewrite Hlen. reflexivity.
  - destruct (length addr1 =? length addr2)%nat eqn:Hlen; [| discriminate].
    cbn [negb]. rewrite negb_false_iff, bool_decide_eq_true.
    intros Hall Hnd. split; [apply Nat.eqb_eq, Hlen |].
    intros a Hin Hne.
    pose proof (Hall _ _ (addressMap_lookup_NoDup addr1 a Hnd Hin)) as Hsame.
    unfold GoIndex in Hsame.
    destruct (addressMap addr2 !! addrType a) as [v |] eqn:Hv; cbn in Hsame.
    + subst v. destruct (addressMap_lookup_Some addr2 _ _ Hv) as (a' & ? & ? & ?).
      eauto.
    + congruence.
Qed.

Lemma MatchTaint_refl (t : Taint) : MatchTaint t t = true.
Proof. unfold MatchTaint. now rewrite !String.eqb_refl. Qed.

(** X20. [removeCloudTaints] leaves a node without cloud taint as it is.
    Otherwise it removes the first cloud taint and every taint of the same
    key and effect, so the node has fewer taints afterwards, and it keeps
    all other taints in their order. *)
Theorem removeCloudTaints_spec (node : NodeObject) :
  (findCloudTaint (objTaints node) = None -> removeCloudTaints node = node) /\
  (forall cloudTaint,
      findCloudTaint (objTaints node) = Some cloudTaint ->
      objTaints (removeCloudTaints node)
      = List.filter (fun t => negb (MatchTaint cloudTaint t)) (objTaints node) /\
      Forall (fun t => MatchTaint cloudTaint t = false)
        (objTaints (removeCloudTaints node)) /\
      (length (objTaints (removeCloudTaints node)) < length (objTaints node))%nat /\
      forall t, In t (objTaints node) -> MatchTaint cloudTaint t = false ->
                In t (objTaints (removeCloudTaints node))).
Proof.
  unfold removeCloudTaints. split.
  - intros ->. reflexivity.
  - intros ct Hfind. rewrite Hfind. cbn [withTaints objTaints].
    unfold excludeTaintFromList. split; [reflexivity | split; [| split]].
    + apply List.Forall_forall. intros t Ht.
      apply List.filter_In in Ht as [_ Ht]. now apply negb_true_iff in Ht.
    + unfold findCloudTaint in Hfind. apply List.find_some in Hfind as [Hin _].
      clear -Hin. induction (objTaints node) as [| t l IH]; [contradiction |].
      cbn [List.filter length].
      pose proof (List.filter_length_le (fun t => negb (MatchTaint ct t)) l) as Hle.
      destruct Hin as [-> | Hin].
      * rewrite MatchTaint_refl. cbn [negb]. lia.
      * specialize (IH Hin). destruct (negb (MatchTaint ct t)); cbn [length]; lia.
    + intros t Hin Hno. apply List.filter_In. split; [exact Hin |].
      now rewrite Hno.
Qed.

(** X21. [isProvidedAddrExist] reports an address exactly when the node
    carries the annotation of the provided address; the address it returns is
    one of the given addresses and equals the annotation, and it returns none
    only when no given address equals the annotation. *)
Theorem isProvidedAddrExist_spec (node : NodeObject) (nodeAddresses : list NodeAddress) :
  (snd (isProvidedAddrExist node nodeAddresses) = true <->
   exists addr, objAnnotations node !! AnnotationProvidedIPAddr = Some addr) /\
  (forall nodeIP,
      fst (isProvidedAddrExist node nodeAddresses) = Some nodeIP ->
      In nodeIP nodeAddresses /\
      objAnnotations node !! AnnotationProvidedIPAddr = Some (addrAddress nodeIP)) /\
  (forall addr,
      objAnnotations node !! AnnotationProvidedIPAddr = Some addr ->
      fst (isProvidedAddrExist node nodeAddresses) = None ->
      Forall (fun a => addrAddress a <> addr) nodeAddresses).
Proof.
  unfold isProvidedAddrExist.
  destruct (objAnnotations node !! AnnotationProvidedIPAddr) as [addr |] eqn:Ha;
    cbn [fst snd].
  - split; [split; eauto | split].
    + intros ip Hfind. apply List.find_some in Hfind as [Hin Heq].
      apply String.eqb_eq in Heq. subst addr. auto.
    + intros addr0 [= <-] Hnone. apply List.Forall_forall. intros a Hin Heq.
      pose proof (List.find_none _ _ Hnone a Hin) as Hno. cbn in Hno.
      rewrite Heq, String.eqb_refl in Hno. discriminate.
  - split; [split; [discriminate | intros [addr [=]]] | split; discriminate].
Qed.

Section NodeControllerProperties.
Context {Ext : Type} `{NodeCollaborators Ext}.

Section NodeOnly.
Variable P : NodeCall -> Prop.

Lemma nodeEmitsOnly_ret {A} (a : A) : nodeEmitsOnly P (@nret Ext A a).
Proof. intros w. exists []. simpl. rewrite app_nil_r. auto. Qed.

Lemma nodeEmitsOnly_bind {A B} (m : NM Ext A) (k : A -> NM Ext B) :
  nodeEmitsOnly P m -> (forall a, nodeEmitsOnly P (k a)) ->
  nodeEmitsOnly P (nbind m k).
Proof.
  intros Hm Hk w. unfold nbind.
  destruct (Hm w) as (l1 & Hl1 & Hp1). destruct (m w) as [a w1]. cbn [snd] in Hl1.
  destruct (Hk a w1) as (l2 & Hl2 & Hp2).
  exists (l1 ++ l2). rewrite Hl2, Hl1, app_assoc. split; [reflexivity |].
  apply Forall_app; auto.
Qed.

Lemma nodeEmitsOnly_ninvoke {A} (c : NodeCall) (f : Ext -> A * Ext) :
  P c -> nodeEmitsOnly P (ninvoke c f).
Proof.
  intros Hc w. exists [c]. unfold ninvoke.
  destruct (f (nodeExt w)). cbn [snd nodeCalls]. auto.
Qed.

Lemma nodeEmitsOnly_nrecord (c : NodeCall) :
  P c -> nodeEmitsOnly P (@nrecord Ext c).
Proof. intros Hc w. exists [c]. cbn. auto. Qed.
End NodeOnly.

Lemma nodeConditionReadyLoop_calls (P : NodeCall -> Prop) (rep : nat)
    (node : NodeObject) :
  (forall name, P (CallNodesGet name)) ->
  nodeEmitsOnly P (nodeConditionReadyLoop rep node).
Proof.
  intros Hget. revert node. induction rep as [| rep IH]; intros node; simpl.
  - apply nodeEmitsOnly_ret.
  - destruct (readyCondition node); [apply nodeEmitsOnly_ret |].
    apply nodeEmitsOnly_bind; [apply nodeEmitsOnly_ninvoke, Hget |].
    intros [fetched | e]; [apply IH | apply nodeEmitsOnly_ret].
Qed.

Lemma nodeConditionReady_own (node : NodeObject) (cond : NodeCondition)
    (w : NodeWorld Ext) :
  readyCondition node = Some cond ->
  nodeConditionReady node w = (Some cond, w).
Proof. intros Hc. unfold nodeConditionReady. simpl. rewrite Hc. reflexivity. Qed.

Lemma syncCloudNodesLoop_calls (all nodes : list NodeObject)
    (instances : gmap string CloudNodeAttribute) :
  (forall node, In node nodes -> In node all) ->
  nodeEmitsOnly (deletesOnlyLost all instances) (syncCloudNodesLoop nodes instances).
Proof.
  induction nodes as [| node rest IH]; intros Hsub; cbn [syncCloudNodesLoop].
  - apply nodeEmitsOnly_ret.
  - assert (Hrest : nodeEmitsOnly (deletesOnlyLost all instances)
                      (syncCloudNodesLoop rest instances))
      by (apply IH; intros n Hn; apply Hsub; right; exact Hn).
    intros w.
    destruct (readyCondition node) as [own |] eqn:Hown.
    + unfold nbind at 1. rewrite (nodeConditionReady_own node own w Hown).
      destruct (String.eqb (condStatus own) ConditionTrue) eqn:Hst;
        [apply Hrest |].
      destruct (instances !! objProviderID node) eqn:Hins; [apply Hrest |].
      apply (nodeEmitsOnly_bind _ _ _); [| intros _; exact Hrest].
      apply nodeEmitsOnly_nrecord. cbn. exists node.
      split_and!; auto.
      * apply Hsub. left. reflexivity.
      * intros cond Hc. rewrite Hown in Hc. injection Hc as <-.
        apply String.eqb_neq, Hst.
    + revert w. apply nodeEmitsOnly_bind.
      * apply nodeConditionReadyLoop_calls. intros name. exact I.
      * intros [cond |]; [| exact Hrest].
        destruct (String.eqb (condStatus cond) ConditionTrue); [exact Hrest |].
        destruct (instances !! objProviderID node) eqn:Hins; [exact Hrest |].
        apply nodeEmitsOnly_bind; [| intros _; exact Hrest].
        apply nodeEmitsOnly_nrecord. cbn. exists node.
        split_and!; auto.
        -- apply Hsub. left. reflexivity.
        -- intros c Hc. congruence.
Qed.

(** X22. [syncCloudNodes] starts the deletion of a node only if the node
    is in the list it was given, the cloud did not list an instance for its
    provider id, and the Ready condition the node carries, if it carries one,
    is not True; it never patches a node, and it fails only when the cloud is
    no [CloudInstance] or cannot list the instances. *)
Theorem syncCloudNodes_deletes_only_lost (nodes : list NodeObject)
    (w : NodeWorld Ext) :
  (forall name,
      In (GoDeleteNode name)
         (drop (length (nodeCalls w)) (nodeCalls (snd (syncCloudNodes nodes w)))) ->
      exists instances node,
        fst (cloud_ListInstances (nodeids nodes) (nodeExt w)) = inl instances /\
        In node nodes /\ objName node = name /\
        instances !! objProviderID node = None /\
        (forall cond, readyCondition node = Some cond ->
                      condStatus cond <> ConditionTrue)) /\
  (forall name old new,
      ~ In (CallPatchNodeStatus name old new)
          (drop (length (nodeCalls w)) (nodeCalls (snd (syncCloudNodes nodes w))))) /\
  (fst (syncCloudNodes nodes w) = None <->
   cloud_isCloudInstance = true /\
   exists instances,
     fst (cloud_ListInstances (nodeids nodes) (nodeExt w)) = inl instances).
Proof.
  unfold syncCloudNodes.
  destruct cloud_isCloudInstance; cbn [negb].
  2:{ cbn. rewrite drop_all. split; [| split].
      - intros name Hin. contradiction.
      - intros name old new Hin. contradiction.
      - split; [discriminate | intros [Hc _]; discriminate]. }
  unfold nbind, ninvoke.
  destruct (cloud_ListInstances (nodeids nodes) (nodeExt w)) as [[instances | e] x].
  2:{ cbn. rewrite drop_app_length. split; [| split].
      - intros name Hin. simpl in Hin.
        destruct Hin as [Hin | Hin]; [discriminate | contradiction].
      - intros name old new Hin. simpl in Hin.
        destruct Hin as [Hin | Hin]; [discriminate | contradiction].
      - split; [discriminate | intros [_ [i Hi]]; discriminate]. }
  destruct (syncCloudNodesLoop_calls nodes nodes instances (fun _ Hn => Hn)
              {| nodeExt := x;
                 nodeCalls := nodeCalls w ++ [CallListInstances (nodeids nodes)] |})
    as (l & Hl & Hall).
  destruct (syncCloudNodesLoop nodes instances _) as [[] w1].
  cbn [fst snd nodeCalls nret] in *. unfold nret. cbn [fst snd].
  rewrite Hl, <- app_assoc, drop_app_length. cbn [app In].
  rewrite List.Forall_forall in Hall.
  split; [| split].
  - intros name [Hin | Hin]; [discriminate |].
    specialize (Hall _ Hin). cbn in Hall.
    destruct Hall as (node & ? & ? & ? & ?). exists instances, node. auto.
  - intros name old new [Hin | Hin]; [discriminate |]. exact (Hall _ Hin).
  - split; eauto.
Qed.

Lemma patchAndReport_calls (all : list NodeObject) (node : NodeObject)
    (addrs : list NodeAddress) :
  In node all ->
  nodeEmitsOnly (patchesOnlyChanged all) (patchAndReport node addrs).
Proof.
  intros Hin. unfold patchAndReport. apply nodeEmitsOnly_bind.
  - unfold tryPatchNodeAddress. cbn [withAddresses objAddresses].
    destruct (isNodeAddressChanged (objAddresses node) addrs) eqn:Hch; cbn [negb].
    + apply nodeEmitsOnly_ninvoke. cbn. auto.
    + apply nodeEmitsOnly_ret.
  - intros [e |]; [apply nodeEmitsOnly_nrecord; exact I | apply nodeEmitsOnly_ret].
Qed.

Lemma syncNodeAddressLoop_calls (all nodes : list NodeObject)
    (instances : gmap string CloudNodeAttribute) :
  (forall node, In node nodes -> In node all) ->
  nodeEmitsOnly (patchesOnlyChanged all) (syncNodeAddressLoop nodes instances).
Proof.
  revert instances. induction nodes as [| node rest IH]; intros instances Hsub;
    cbn [syncNodeAddressLoop].
  - apply nodeEmitsOnly_ret.
  - assert (Hrest : forall i, nodeEmitsOnly (patchesOnlyChanged all)
                                (syncNodeAddressLoop rest i))
      by (intros i; apply IH; intros n Hn; apply Hsub; right; exact Hn).
    assert (Hnode : In node all) by (apply Hsub; left; reflexivity).
    destruct (instances !! objProviderID node) as [cloudNode |]; [| apply Hrest].
    destruct (isProvidedAddrExist node _) as [[nodeIP |] [|]].
    + apply nodeEmitsOnly_bind; [apply patchAndReport_calls, Hnode |].
      intros _. apply Hrest.
    + apply nodeEmitsOnly_bind; [apply patchAndReport_calls, Hnode |].
      intros _. apply Hrest.
    + apply Hrest.
    + apply nodeEmitsOnly_bind; [apply patchAndReport_calls, Hnode |].
      intros _. apply Hrest.
Qed.

(** X23. [syncNodeAddress] patches only nodes of the list it was given, and
    only with addresses that [isNodeAddressChanged] tells apart from the ones
    the node has; it never starts a deletion, and it fails only when the
    cloud is no [CloudInstance] or cannot list the instances. *)
Theorem syncNodeAddress_patches_only_changed (nodes : list NodeObject)
    (w : NodeWorld Ext) :
  Forall (patchesOnlyChanged nodes)
    (drop (length (nodeCalls w)) (nodeCalls (snd (syncNodeAddress nodes w)))) /\
  (fst (syncNodeAddress nodes w) = None <->
   cloud_isCloudInstance = true /\
   exists instances,
     fst (cloud_ListInstances (nodeids nodes) (nodeExt w)) = inl instances).
Proof.
  unfold syncNodeAddress.
  destruct cloud_isCloudInstance; cbn [negb].
  2:{ cbn. rewrite drop_all. split; [constructor |].
      split; [discriminate | intros [Hc _]; discriminate]. }
  unfold nbind, ninvoke.
  destruct (cloud_ListInstances (nodeids nodes) (nodeExt w)) as [[instances | e] x].
  2:{ cbn. rewrite drop_app_length. split; [repeat constructor |].
      split; [discriminate | intros [_ [i Hi]]; discriminate]. }
  destruct (syncNodeAddressLoop_calls nodes nodes instances (fun _ Hn => Hn)
              {| nodeExt := x;
                 nodeCalls := nodeCalls w ++ [CallListInstances (nodeids nodes)] |})
    as (l & Hl & Hall).
  destruct (syncNodeAddressLoop nodes instances _) as [[] w1].
  cbn [fst snd nodeCalls nret] in *. unfold nret. cbn [fst snd].
  rewrite Hl, <- app_assoc, drop_app_length. cbn [app].
  split; [constructor; [exact I | exact Hall] | split; eauto].
Qed.
End NodeControllerProperties.

(** ** The properties above on examples *)

Lemma ServiceSyncTask_rejects_witness :
  @ServiceSyncTask exampleFiles Script scripted exampleController "a/b/c"
    (startWorld quietScript ∅)
  = (Some (Errorf "unexpected key format a/b/c for syncing service"),
     startWorld quietScript ∅).
Proof.
  apply (proj1 (@ServiceSyncTask_rejects exampleFiles Script scripted
                  exampleController "a/b/c" (startWorld quietScript ∅))).
  vm_compute. lia.
Defined.

Lemma ServiceSyncTask_deletion_witness :
  @ServiceSyncTask exampleFiles Script scripted exampleController "default/web"
    rememberedWorld
  = @retry Script None (@delete Script scripted exampleController) lbService
      rememberedWorld.
Proof.
  apply (@ServiceSyncTask_deletion exampleFiles Script scripted exampleController
           "default/web" "default" "web" lbService rememberedWorld).
  - vm_compute. reflexivity.
  - vm_compute. reflexivity.
  - vm_compute. reflexivity.
Defined.

Lemma update_touches_own_key_witness :
  local (snd (@update exampleFiles Script scripted exampleController None
                plainService rememberedWorld)) !! "kube-system/dns"
  = local rememberedWorld !! "kube-system/dns".
Proof.
  apply (@update_touches_own_key exampleFiles Script scripted exampleController
           None plainService rememberedWorld "kube-system/dns").
  vm_compute. discriminate.
Defined.

Lemma update_failure_keeps_cache_witness :
  local (snd (@update exampleFiles Script scripted exampleController None
                lbService (startWorld rejectingScript ∅)))
  = local (startWorld rejectingScript ∅).
Proof.
  apply (@update_failure_keeps_cache exampleFiles Script scripted exampleController
           None lbService (startWorld rejectingScript ∅) _
           (Errorf "ensure loadbalancer error: InvalidParameter")).
  - reflexivity.
  - reflexivity.
  - vm_compute. reflexivity.
Defined.

Lemma cache_stays_wellKeyed_witness :
  wellKeyed (local crowdedWorld) /\
  (local (snd (@ServiceSyncTask exampleFiles Script scripted exampleController
                 "default/web" crowdedWorld))
   = {[ "kube-system/dns" := dnsService ]} /\
   wellKeyed (local (snd (@ServiceSyncTask exampleFiles Script scripted
                            exampleController "default/web" crowdedWorld)))) /\
  (local (snd (@serviceDeleted exampleFilters Script (Some settledService)
                 crowdedWorld))
   = <[ "kube-system/dns" := dnsService ]> {[ "default/web" := settledService ]} /\
   wellKeyed (local (snd (@serviceDeleted exampleFilters Script
                            (Some settledService) crowdedWorld)))).
Proof.
  assert (Hkeyed : wellKeyed (local crowdedWorld)).
  { apply (bool_decide_unpack
             (map_Forall (fun k svc => key svc = k) (local crowdedWorld))).
    vm_compute. exact I. }
  split; [exact Hkeyed | split; (split; [vm_compute; reflexivity |])].
  - exact (proj1 (@cache_stays_wellKeyed exampleFiles exampleFilters Script scripted
                    exampleController "default/web" (Some settledService)
                    crowdedWorld Hkeyed)).
  - exact (proj2 (@cache_stays_wellKeyed exampleFiles exampleFilters Script scripted
                    exampleController "default/web" (Some settledService)
                    crowdedWorld Hkeyed)).
Defined.

Lemma deletion_event_reaches_backend_witness :
  fst (@serviceDeleted exampleFilters Script (Some lbService)
         (startWorld goneScript ∅)) = ["default/web"].
Proof.
  apply (@deletion_event_reaches_backend exampleFiles exampleFilters Script scripted
           exampleController lbService (startWorld goneScript ∅));
    vm_compute; reflexivity.
Defined.

Lemma syncEndpoints_enqueues_witness :
  @syncEndpoints exampleFiles Script scripted (Some webEndpoints) rememberedWorld
  = (["default/web"], rememberedWorld).
Proof.
  apply (proj1 (@syncEndpoints_enqueues exampleFiles Script scripted webEndpoints
                  rememberedWorld) lbService).
  vm_compute. reflexivity.
Defined.

Lemma retry_delete_gives_up_witness :
  fst (@retry unit None (@delete unit outage exampleController) lbService
         outageWorld) = Some ErrWaitTimeout.
Proof.
  apply (@retry_delete_gives_up unit outage exampleController lbService outageWorld).
  intros x. cbn. discriminate.
Defined.

Lemma update_ensures_eligible_nodes_witness :
  [readyNode "worker-1" ∅]
  = List.filter (@predicate exampleFiles lbService)
      (fst (@lister_NodesList Script scripted (ext (startWorld quietScript ∅)))).
Proof.
  apply (@update_ensures_eligible_nodes exampleFiles Script scripted
           exampleController None lbService (startWorld quietScript ∅)
           "kubernetes" lbService [readyNode "worker-1" ∅]).
  vm_compute. left. reflexivity.
Defined.

Lemma predicate_unschedulable_witness :
  @predicate exampleFiles lbService (withUnschedulable (readyNode "worker-1" ∅) true)
  = @predicate exampleFiles lbService (readyNode "worker-1" ∅) /\
  @predicate exampleFiles optInService (withUnschedulable (readyNode "worker-1" ∅) true)
  = false.
Proof.
  split.
  - apply (proj1 (@predicate_unschedulable exampleFiles lbService
                    (readyNode "worker-1" ∅) true)).
    vm_compute. discriminate.
  - apply (proj2 (@predicate_unschedulable exampleFiles optInService
                    (readyNode "worker-1" ∅) true)).
    vm_compute. reflexivity.
Defined.

Lemma predicate_plain_node_witness :
  @predicate exampleFiles lbService notReadyNode = true <->
  nodeConditions notReadyNode <> [] /\
  Forall (fun cond => condType cond = NodeReady -> condStatus cond = ConditionTrue)
    (nodeConditions notReadyNode).
Proof.
  apply (@predicate_plain_node exampleFiles lbService notReadyNode).
  - reflexivity.
  - vm_compute. reflexivity.
  - vm_compute. discriminate.
Defined.

Lemma getLogMessage_spec_witness :
  getLogMessage (Errorf "boom") = "boom" /\
  String.prefix "Message:"
    (getLogMessage (Errorf "code: 400, Message: bad request")) = true.
Proof.
  split.
  - apply (proj1 (getLogMessage_spec (Errorf "boom"))). vm_compute. reflexivity.
  - apply (proj2 (getLogMessage_spec (Errorf "code: 400, Message: bad request"))).
    vm_compute. reflexivity.
Defined.

Lemma setHostnameAddress_idempotent_witness :
  setHostnameAddress knownNode (setHostnameAddress knownNode [internalIP])
  = setHostnameAddress knownNode [internalIP].
Proof.
  exact (proj2 (setHostnameAddress_idempotent knownNode [internalIP])).
Defined.

Lemma isNodeAddressChanged_spec_witness :
  isNodeAddressChanged [internalIP] [internalIP; hostName] = true.
Proof.
  apply (proj1 (proj2 (isNodeAddressChanged_spec [internalIP] [internalIP; hostName]))).
  vm_compute. discriminate.
Defined.

Lemma removeCloudTaints_spec_witness :
  objTaints (removeCloudTaints lostNode)
  = List.filter (fun t => negb (MatchTaint cloudTaint t)) (objTaints lostNode) /\
  removeCloudTaints knownNode = knownNode.
Proof.
  split.
  - apply (proj2 (removeCloudTaints_spec lostNode) cloudTaint).
    vm_compute. reflexivity.
  - apply (proj1 (removeCloudTaints_spec knownNode)).
    vm_compute. reflexivity.
Defined.

Lemma isProvidedAddrExist_spec_witness :
  In internalIP [hostName; internalIP] /\
  objAnnotations knownNode !! AnnotationProvidedIPAddr = Some (addrAddress internalIP).
Proof.
  apply (proj1 (proj2 (isProvidedAddrExist_spec knownNode [hostName; internalIP]))
           internalIP).
  vm_compute. reflexivity.
Defined.

Lemma syncNodes_enqueues_witness :
  "default/web" ∈ fst (@syncNodes exampleFiles exampleFilters Script
                          (Some (readyNode "worker-1" ∅)) rememberedWorld).
Proof.
  apply (proj2 (@syncNodes_enqueues exampleFiles exampleFilters Script
                  (Some (readyNode "worker-1" ∅)) rememberedWorld "default/web")).
  exists (readyNode "worker-1" ∅), "default/web", lbService.
  vm_compute. split_and!; reflexivity.
Defined.

Lemma syncCloudNodes_deletes_only_lost_witness :
  exists instances node,
    fst (@cloud_ListInstances NodeScript nodeScripted (nodeids [lostNode; knownNode])
           (nodeExt (startNodeWorld oneInstance))) = inl instances /\
    In node [lostNode; knownNode] /\ objName node = "worker-9" /\
    instances !! objProviderID node = None /\
    (forall cond, readyCondition node = Some cond ->
                  condStatus cond <> ConditionTrue).
Proof.
  apply (proj1 (@syncCloudNodes_deletes_only_lost NodeScript nodeScripted
                  [lostNode; knownNode] (startNodeWorld oneInstance)) "worker-9").
  vm_compute. right. left. reflexivity.
Defined.

Lemma syncNodeAddress_patches_only_changed_witness :
  fst (@syncNodeAddress NodeScript nodeScripted [lostNode; knownNode]
         (startNodeWorld oneInstance)) = None.
Proof.
  apply (proj2 (@syncNodeAddress_patches_only_changed NodeScript nodeScripted
                  [lostNode; knownNode] (startNodeWorld oneInstance))).
  split; [reflexivity |].
  eexists. vm_compute. reflexivity.
Defined.
